(** * ODLA dynamic-shape inference driver (python/halo/odla_dbnet.py)

    A shallow embedding of the [ODLAModel] class: the Python object, the
    ctypes memory it allocates and the native ODLA runtime it drives are
    threaded explicitly through a state-and-exception monad.  Every native
    entry point called by the class is recorded in a call log, so that
    ordering properties ("before the runtime is invoked") can be stated. *)

From Stdlib Require Import ZArith List Lia Strings.Byte.
From stdpp Require Import base option list gmap.
Import ListNotations.
Open Scope Z_scope.

(** ** Configuration item codes (module-level constants, lines 26-46) *)

Definition ODLA_DYNAMIC_BATCH : Z := 0.
Definition ODLA_MIN_BATCH_SIZE : Z := 1.
Definition ODLA_MAX_BATCH_SIZE : Z := 2.
Definition ODLA_OPT_BATCH_SIZE : Z := 3.
Definition ODLA_RUN_BATCH_SIZE : Z := 4.
Definition ODLA_DYNAMIC_SHAPE : Z := 5.
Definition ODLA_MIN_SHAPE : Z := 6.
Definition ODLA_MAX_SHAPE : Z := 7.
Definition ODLA_OPT_SHAPE : Z := 8.
Definition ODLA_BF16_MODE : Z := 9.
Definition ODLA_FP16_MODE : Z := 10.
Definition ODLA_USE_SIM_MODE : Z := 11.
Definition ODLA_PROCESSOR_NUM : Z := 12.
Definition ODLA_BATCHES_PER_STEP : Z := 13.
Definition ODLA_USE_DATA_TYPE : Z := 14.
Definition ODLA_LOAD_ENGINE_MODE : Z := 15.
Definition ODLA_USE_DLA_CORE : Z := 16.
Definition ODLA_QUANT_TABLE : Z := 17.
Definition ODLA_QUANT_TABLE_SIZE : Z := 18.
Definition ODLA_ENABLE_ENGINE_CACHE : Z := 19.
Definition ODLA_CACHE_DIR : Z := 20.

(** The same constants as a closed enumeration, in declaration order. *)
Inductive odla_item : Set :=
  | DYNAMIC_BATCH | MIN_BATCH_SIZE | MAX_BATCH_SIZE | OPT_BATCH_SIZE
  | RUN_BATCH_SIZE | DYNAMIC_SHAPE | MIN_SHAPE | MAX_SHAPE | OPT_SHAPE
  | BF16_MODE | FP16_MODE | USE_SIM_MODE | PROCESSOR_NUM | BATCHES_PER_STEP
  | USE_DATA_TYPE | LOAD_ENGINE_MODE | USE_DLA_CORE | QUANT_TABLE
  | QUANT_TABLE_SIZE | ENABLE_ENGINE_CACHE | CACHE_DIR.

Definition all_items : list odla_item :=
  [ DYNAMIC_BATCH; MIN_BATCH_SIZE; MAX_BATCH_SIZE; OPT_BATCH_SIZE;
    RUN_BATCH_SIZE; DYNAMIC_SHAPE; MIN_SHAPE; MAX_SHAPE; OPT_SHAPE;
    BF16_MODE; FP16_MODE; USE_SIM_MODE; PROCESSOR_NUM; BATCHES_PER_STEP;
    USE_DATA_TYPE; LOAD_ENGINE_MODE; USE_DLA_CORE; QUANT_TABLE;
    QUANT_TABLE_SIZE; ENABLE_ENGINE_CACHE; CACHE_DIR ].

Definition item_code (i : odla_item) : Z :=
  match i with
  | DYNAMIC_BATCH => ODLA_DYNAMIC_BATCH
  | MIN_BATCH_SIZE => ODLA_MIN_BATCH_SIZE
  | MAX_BATCH_SIZE => ODLA_MAX_BATCH_SIZE
  | OPT_BATCH_SIZE => ODLA_OPT_BATCH_SIZE
  | RUN_BATCH_SIZE => ODLA_RUN_BATCH_SIZE
  | DYNAMIC_SHAPE => ODLA_DYNAMIC_SHAPE
  | MIN_SHAPE => ODLA_MIN_SHAPE
  | MAX_SHAPE => ODLA_MAX_SHAPE
  | OPT_SHAPE => ODLA_OPT_SHAPE
  | BF16_MODE => ODLA_BF16_MODE
  | FP16_MODE => ODLA_FP16_MODE
  | USE_SIM_MODE => ODLA_USE_SIM_MODE
  | PROCESSOR_NUM => ODLA_PROCESSOR_NUM
  | BATCHES_PER_STEP => ODLA_BATCHES_PER_STEP
  | USE_DATA_TYPE => ODLA_USE_DATA_TYPE
  | LOAD_ENGINE_MODE => ODLA_LOAD_ENGINE_MODE
  | USE_DLA_CORE => ODLA_USE_DLA_CORE
  | QUANT_TABLE => ODLA_QUANT_TABLE
  | QUANT_TABLE_SIZE => ODLA_QUANT_TABLE_SIZE
  | ENABLE_ENGINE_CACHE => ODLA_ENABLE_ENGINE_CACHE
  | CACHE_DIR => ODLA_CACHE_DIR
  end.

Definition item_of_code (c : Z) : option odla_item :=
  if (0 <=? c) && (c <? 21) then all_items !! Z.to_nat c else None.

(** ** ctypes structures (lines 48-53) *)

(** [ValueShape]: a [c_int32] logical length and a [c_int64 * 10] array. *)
Record ValueShape := mkValueShape { size : Z; dims : list Z }.

Record ValueType := mkValueType { element_type : Z; shape : ValueShape }.

Definition MAX_DIMS : nat := 10.

(** [dims_array(d0, d1, ...)]: ctypes pads the missing entries with zero. *)
Definition dims_array (ds : list Z) : list Z :=
  ds ++ repeat 0 (MAX_DIMS - length ds).


Definition in_int32 (z : Z) : bool := (- 2 ^ 31 <=? z) && (z <? 2 ^ 31).
Definition in_int64 (z : Z) : bool := (- 2 ^ 63 <=? z) && (z <? 2 ^ 63).

(** A shape that fits the C layout. *)
Definition wf_shape (vs : ValueShape) : bool :=
  in_int32 (size vs) && (length (dims vs) =? MAX_DIMS)%nat
  && forallb in_int64 (dims vs).

(** ** Python exceptions and the state-and-exception monad *)

(** Modelled from the spec: the failure taxonomy of section 7.  The class
    has no code that reports one of these; the constructor [EngineError]
    below exists so that "fails with NotReady" can be stated at all. *)
Inductive Failure : Set :=
  | BuildError | InvalidShapeError | ShapeOutOfRange | UnresolvedDynamicShape
  | SizeMismatch | NotReady | ExecutionError | UseAfterFree
  | UnsupportedOption.

Inductive PyError : Set :=
  | AttributeError | UnboundLocalError | IndexError | ValueError
  | OverflowError | MemoryError
  | EngineError (f : Failure).

(** The exceptions Python itself raises. *)
Definition builtin (e : PyError) : bool :=
  match e with EngineError _ => false | _ => true end.

Inductive result (A : Type) : Type :=
  | Ok (a : A)
  | Raise (e : PyError).
Arguments Ok {A} a.
Arguments Raise {A} e.

Abbreviation buffer := (list byte).

(** Calls into the shared object, in the order the class issues them.
    A [Create] call carries the handle the runtime wrote back. *)
Inductive NativeCall : Type :=
  | CreateComputation (new_comp : Z)
  | ModelHelper (comp : Z)
  | GetNumOfArgsFromComputation (comp : Z)
  | GetNumOfOutputsFromComputation (comp : Z)
  | GetArgFromComputationByIdx (comp idx : Z)
  | SetComputationItem (comp item : Z) (v : bool)
  | SetValueShapeInfo (value item : Z) (vs : ValueShape)
  | CreateContext (new_ctx : Z)
  | SetRuntimeShape (ctx value : Z) (vs : ValueShape)
  | GetValueType (value : Z)
  | BindToArgument (value : Z) (data : buffer) (ctx : Z)
  | GetOutputFromComputationByIdx (comp idx : Z)
  | GetRuntimeShape (ctx value : Z)
  | BindToOutput (value : Z) (buf : nat) (ctx : Z)
  | ExecuteComputation (comp ctx : Z)
  | DestroyContext (ctx : Z)
  | DestroyComputation (comp : Z).

(** What one execution context holds inside the runtime: the runtime shapes
    set on it and the buffers bound to it, each in call order. *)
Record Context := mkContext {
  rt_shapes : list (Z * ValueShape);
  bound_args : list (Z * buffer);
  bound_outs : list (Z * nat)
}.

Definition empty_context : Context := mkContext [] [] [].

(** The native runtime as the class can observe it. *)
Record Native := mkNative {
  next_handle : Z;
  items : gmap (Z * Z) bool;
  shape_info : gmap (Z * Z) ValueShape;
  contexts : gmap Z Context;
  calls : list NativeCall
}.

(** Attributes of the [ODLAModel] object.  [None] stands for an attribute
    that has not been assigned yet ([comp], [ctx], [nr_args], [nr_outputs]
    are not set by [__init__]); [h] is [false] while [self.h] is [None]. *)
Record ODLAModel := mkODLAModel {
  h : bool;
  comp : option Z;
  ctx : option Z;
  nr_args : option Z;
  nr_outputs : option Z;
  in_vals : list (Z * ValueType);
  out_vals : list (Z * ValueType * Z);
  buffers : list nat
}.

(** [memory] holds the ctypes arrays allocated by the class, addressed by
    allocation order; [vt] is the one local variable of [Execute] that
    outlives the loop assigning it. *)
Record World := mkWorld {
  self : ODLAModel;
  vt : option ValueType;
  memory : list buffer;
  native : Native
}.

Definition M (A : Type) : Type := World -> World * result A.

#[global] Instance M_ret : MRet M := fun A a w => (w, Ok a).
#[global] Instance M_bind : MBind M := fun A B f m w =>
  match m w with
  | (w', Ok a) => f a w'
  | (w', Raise e) => (w', Raise e)
  end.

Definition raise {A} (e : PyError) : M A := fun w => (w, Raise e).
Definition get : M World := fun w => (w, Ok w).
Definition modify (f : World -> World) : M unit := fun w => (f w, Ok tt).

(** [for x in xs: body(x)] *)
Fixpoint for_each {A} (xs : list A) (body : A -> M unit) : M unit :=
  match xs with
  | [] => mret tt
  | x :: xs' => body x ;; for_each xs' body
  end.

(** [range(0, n)] *)
Definition range (n : Z) : list Z := Z.of_nat <$> seq 0 (Z.to_nat n).

(** [enumerate(xs)] *)
Definition enumerate {A} (xs : list A) : list (Z * A) :=
  zip (range (Z.of_nat (length xs))) xs.

(** ** Field updates *)

Definition upd_self (f : ODLAModel -> ODLAModel) (w : World) : World :=
  mkWorld (f (self w)) (vt w) (memory w) (native w).
Definition upd_native (f : Native -> Native) (w : World) : World :=
  mkWorld (self w) (vt w) (memory w) (f (native w)).
Definition set_vt (v : option ValueType) (w : World) : World :=
  mkWorld (self w) v (memory w) (native w).
Definition set_memory (m : list buffer) (w : World) : World :=
  mkWorld (self w) (vt w) m (native w).

Definition set_h (b : bool) (o : ODLAModel) : ODLAModel :=
  mkODLAModel b (comp o) (ctx o) (nr_args o) (nr_outputs o)
    (in_vals o) (out_vals o) (buffers o).
Definition set_comp (c : option Z) (o : ODLAModel) : ODLAModel :=
  mkODLAModel (h o) c (ctx o) (nr_args o) (nr_outputs o)
    (in_vals o) (out_vals o) (buffers o).
Definition set_ctx (c : option Z) (o : ODLAModel) : ODLAModel :=
  mkODLAModel (h o) (comp o) c (nr_args o) (nr_outputs o)
    (in_vals o) (out_vals o) (buffers o).
Definition set_nr_args (n : option Z) (o : ODLAModel) : ODLAModel :=
  mkODLAModel (h o) (comp o) (ctx o) n (nr_outputs o)
    (in_vals o) (out_vals o) (buffers o).
Definition set_nr_outputs (n : option Z) (o : ODLAModel) : ODLAModel :=
  mkODLAModel (h o) (comp o) (ctx o) (nr_args o) n
    (in_vals o) (out_vals o) (buffers o).
Definition set_in_vals (l : list (Z * ValueType)) (o : ODLAModel) : ODLAModel :=
  mkODLAModel (h o) (comp o) (ctx o) (nr_args o) (nr_outputs o)
    l (out_vals o) (buffers o).
Definition set_out_vals (l : list (Z * ValueType * Z)) (o : ODLAModel)
  : ODLAModel :=
  mkODLAModel (h o) (comp o) (ctx o) (nr_args o) (nr_outputs o)
    (in_vals o) l (buffers o).
Definition set_buffers (l : list nat) (o : ODLAModel) : ODLAModel :=
  mkODLAModel (h o) (comp o) (ctx o) (nr_args o) (nr_outputs o)
    (in_vals o) (out_vals o) l.

Definition log (c : NativeCall) (n : Native) : Native :=
  mkNative (next_handle n) (items n) (shape_info n) (contexts n)
    (calls n ++ [c]).
Definition set_next_handle (z : Z) (n : Native) : Native :=
  mkNative z (items n) (shape_info n) (contexts n) (calls n).
Definition set_items (m : gmap (Z * Z) bool) (n : Native) : Native :=
  mkNative (next_handle n) m (shape_info n) (contexts n) (calls n).
Definition set_shape_info (m : gmap (Z * Z) ValueShape) (n : Native) : Native :=
  mkNative (next_handle n) (items n) m (contexts n) (calls n).
Definition set_contexts (m : gmap Z Context) (n : Native) : Native :=
  mkNative (next_handle n) (items n) (shape_info n) m (calls n).

Definition add_rt_shape (v : Z) (vs : ValueShape) (c : Context) : Context :=
  mkContext (rt_shapes c ++ [(v, vs)]) (bound_args c) (bound_outs c).
Definition add_bound_arg (v : Z) (d : buffer) (c : Context) : Context :=
  mkContext (rt_shapes c) (bound_args c ++ [(v, d)]) (bound_outs c).
Definition add_bound_out (v : Z) (b : nat) (c : Context) : Context :=
  mkContext (rt_shapes c) (bound_args c) (bound_outs c ++ [(v, b)]).

(** Reading an attribute that was never assigned raises [AttributeError]. *)
Definition getattr {A} (field : ODLAModel -> option A) : M A := fun w =>
  match field (self w) with
  | Some a => (w, Ok a)
  | None => (w, Raise AttributeError)
  end.

(** [self.h.<name>]: attribute lookup on [None] raises [AttributeError]. *)
Definition getattr_h : M unit := fun w =>
  if h (self w) then (w, Ok tt) else (w, Raise AttributeError).

(** [sizeof(c_float)] and the largest [Py_ssize_t]. *)
Definition sizeof_c_float : Z := 4.
Definition PY_SSIZE_T_MAX : Z := 2 ^ 63 - 1.

(** [arg_v.value] of a [c_void_p]: the pointer as an unsigned 64-bit
    integer ([None] for the null pointer, written 0 here: both are passed
    to a foreign function as a null argument). *)
Definition c_void_p_value (p : Z) : Z := p mod 2 ^ 64.

(** A Python [int] passed to a foreign function that declares no
    [argtypes]: ctypes converts it to a C [int], keeping the low 32 bits. *)
Definition c_int_arg (v : Z) : Z := (v + 2 ^ 31) mod 2 ^ 32 - 2 ^ 31.

(** [n = 1; for r in range(0, vs.size): n *= vs.dims[r]]; indexing the
    ctypes array past its end raises [IndexError]. *)
Fixpoint mul_dims (ds : list Z) (rs : list Z) (n : Z) : result Z :=
  match rs with
  | [] => Ok n
  | r :: rs' =>
      match ds !! Z.to_nat r with
      | Some d => mul_dims ds rs' (n * d)
      | None => Raise IndexError
      end
  end.

Definition element_count (vs : ValueShape) : result Z :=
  mul_dims (dims vs) (range (size vs)) 1.

Definition lift {A} (r : result A) : M A := fun w => (w, r).

(** Bytes stored into an array of [cap] bytes: cut or zero-padded to fit. *)
Definition fit (cap : nat) (bs : buffer) : buffer :=
  take cap (bs ++ repeat x00 cap).

(** [data[idx]] on a Python list, for a non-negative index. *)
Definition getitem {A} (l : list A) (idx : Z) : M A := fun w =>
  match l !! Z.to_nat idx with
  | Some a => (w, Ok a)
  | None => (w, Raise IndexError)
  end.

(** ** The shared object *)

(** Modelled from the spec: the compiled model library opened with [CDLL]
    (the ODLA runtime together with the generated [model_helper]) is not
    part of the sources.  Following sections 3 and 4 of the specification
    it is described by what its accessors answer: the declared argument and
    output counts, the value handle of each argument and output, the
    declared [ValueType] of a value, the shape the runtime resolves for a
    value from the runtime shapes set on a context, the element size of an
    element-type code, and the bytes a run leaves in an output buffer.  The
    last one is a function of the computation, the resolved input shapes
    and the bound input bytes: the backend is deterministic.  The record
    also carries what the process the library is loaded in decides: whether
    an allocation of a given number of bytes succeeds, given the arrays
    the object already holds. *)
Record SharedObject := mkSharedObject {
  so_nr_args : Z;
  so_nr_outputs : Z;
  so_arg : Z -> Z;
  so_output : Z -> Z;
  so_value_type : Z -> ValueType;
  so_runtime_shape : list (Z * ValueShape) -> Z -> ValueShape;
  so_element_size : Z -> Z;
  so_compute : Z -> list (Z * ValueShape) -> list (Z * buffer) -> Z -> nat
               -> buffer;
  so_allocates : list buffer -> Z -> bool
}.

(** A reference to a Python list object held by the model: [Execute]
    returns [self.buffers] itself, not a copy. *)
Inductive pyref : Set := self_buffers.

Definition deref (r : pyref) (w : World) : list nat :=
  match r with self_buffers => buffers (self w) end.

Section ODLA.

Context (lib : SharedObject).

(** *** Native entry points *)

Definition call (c : NativeCall) : M unit := modify (upd_native (log c)).

(** Handles are handed out fresh and are never null. *)
Definition fresh_handle : M Z :=
  w ← get;
  modify (upd_native (fun n => set_next_handle (next_handle n + 1) n));;
  mret (next_handle (native w)).

Definition odla_CreateComputation : M Z :=
  c ← fresh_handle; call (CreateComputation c);; mret c.

Definition model_helper (c : Z) : M unit := call (ModelHelper c).

Definition odla_GetNumOfArgsFromComputation (c : Z) : M Z :=
  call (GetNumOfArgsFromComputation c);; mret (so_nr_args lib).

Definition odla_GetNumOfOutputsFromComputation (c : Z) : M Z :=
  call (GetNumOfOutputsFromComputation c);; mret (so_nr_outputs lib).

Definition odla_GetArgFromComputationByIdx (c idx : Z) : M Z :=
  call (GetArgFromComputationByIdx c idx);; mret (so_arg lib idx).

Definition odla_GetOutputFromComputationByIdx (c idx : Z) : M Z :=
  call (GetOutputFromComputationByIdx c idx);; mret (so_output lib idx).

Definition odla_SetComputationItem (c item : Z) (v : bool) : M unit :=
  call (SetComputationItem c item v);;
  modify (upd_native (fun n => set_items (<[(c, item) := v]> (items n)) n)).

Definition odla_SetValueShapeInfo (v item : Z) (vs : ValueShape) : M unit :=
  call (SetValueShapeInfo v item vs);;
  modify (upd_native
            (fun n => set_shape_info (<[(v, item) := vs]> (shape_info n)) n)).

Definition odla_CreateContext : M Z :=
  c ← fresh_handle;
  call (CreateContext c);;
  modify (upd_native
            (fun n => set_contexts (<[c := empty_context]> (contexts n)) n));;
  mret c.

Definition upd_context (c : Z) (f : Context -> Context) : M unit :=
  modify (upd_native (fun n => set_contexts (alter f c (contexts n)) n)).

Definition odla_SetRuntimeShape (c v : Z) (vs : ValueShape) : M unit :=
  call (SetRuntimeShape c v vs);; upd_context c (add_rt_shape v vs).

Definition odla_GetValueType (v : Z) : M ValueType :=
  call (GetValueType v);; mret (so_value_type lib v).

Definition odla_BindToArgument (v : Z) (d : buffer) (c : Z) : M unit :=
  call (BindToArgument v d c);; upd_context c (add_bound_arg v d).

Definition context_of (c : Z) (w : World) : Context :=
  default empty_context (contexts (native w) !! c).

Definition odla_GetRuntimeShape (c v : Z) : M ValueShape :=
  w ← get;
  call (GetRuntimeShape c v);;
  mret (so_runtime_shape lib (rt_shapes (context_of c w)) v).

Definition odla_BindToOutput (v : Z) (b : nat) (c : Z) : M unit :=
  call (BindToOutput v b c);; upd_context c (add_bound_out v b).

(** One output of a run: the bound array is overwritten in place and keeps
    its length. *)
Definition write_output (cmp : Z) (cx : Context) (mem : list buffer)
    (ob : Z * nat) : list buffer :=
  let cap := length (default [] (mem !! ob.2)) in
  <[ob.2 := fit cap (so_compute lib cmp (rt_shapes cx) (bound_args cx)
                       ob.1 cap)]> mem.

Definition odla_ExecuteComputation (cmp c : Z) : M unit :=
  call (ExecuteComputation cmp c);;
  modify (fun w =>
    let cx := context_of c w in
    set_memory (fold_left (write_output cmp cx) (bound_outs cx) (memory w)) w).

Definition odla_DestroyContext (c : Z) : M unit :=
  call (DestroyContext c);;
  modify (upd_native (fun n => set_contexts (delete c (contexts n)) n)).

Definition odla_DestroyComputation (c : Z) : M unit :=
  call (DestroyComputation c).

(** [(c_float * n)()].  The length is first converted to [Py_ssize_t]
    ([OverflowError] if it does not fit), a negative length is a
    [ValueError], a byte size beyond [Py_ssize_t] an [OverflowError];
    creating the instance raises [MemoryError] if the bytes cannot be
    allocated.  Otherwise a zero-filled array of [n] floats is allocated;
    the result is the reference to the new array. *)
Definition c_float_array (n : Z) : M nat :=
  if (n <? - 2 ^ 63) || (PY_SSIZE_T_MAX <? n) then raise OverflowError
  else if n <? 0 then raise ValueError
  else if PY_SSIZE_T_MAX <? n * sizeof_c_float then raise OverflowError
  else
    w ← get;
    if so_allocates lib (memory w) (n * sizeof_c_float) then
      modify (fun w => set_memory
                (memory w ++ [repeat x00 (Z.to_nat (n * sizeof_c_float))]) w);;
      mret (length (memory w))
    else raise MemoryError.

(** *** class ODLAModel *)

Definition __init__ : World :=
  mkWorld (mkODLAModel false None None None None [] [] []) None []
    (mkNative 1 ∅ ∅ ∅ []).

Definition Load : M unit :=
  modify (upd_self (set_h true));;
  c ← odla_CreateComputation;
  modify (upd_self (set_comp (Some c)));;
  model_helper c;;
  n ← odla_GetNumOfArgsFromComputation c;
  modify (upd_self (set_nr_args (Some n)));;
  n ← odla_GetNumOfOutputsFromComputation c;
  modify (upd_self (set_nr_outputs (Some n))).

Definition input0_idx : Z := 0.
Definition input0_min_shape : ValueShape :=
  mkValueShape 4 (dims_array [1; 3; 1; 1]).
Definition input0_max_shape : ValueShape :=
  mkValueShape 4 (dims_array [1; 3; 1000; 2000]).
Definition input0_opt_shape : ValueShape :=
  mkValueShape 4 (dims_array [1; 3; 960; 1280]).
Definition input0_real_shape : ValueShape :=
  mkValueShape 4 (dims_array [1; 3; 960; 1280]).

(** Lines 136-154: shape range of argument 0, fresh context, runtime shape. *)
Definition set_shapes (cmp : Z) : M Z :=
  input0_v ← odla_GetArgFromComputationByIdx cmp input0_idx;
  odla_SetComputationItem cmp ODLA_DYNAMIC_SHAPE true;;
  odla_SetValueShapeInfo input0_v ODLA_MIN_SHAPE input0_min_shape;;
  odla_SetValueShapeInfo input0_v ODLA_MAX_SHAPE input0_max_shape;;
  odla_SetValueShapeInfo input0_v ODLA_OPT_SHAPE input0_opt_shape;;
  c ← odla_CreateContext;
  modify (upd_self (set_ctx (Some c)));;
  odla_SetRuntimeShape c input0_v input0_real_shape;;
  mret c.

(** Lines 158-163: body of the loop over the declared arguments.  The
    record appended to [self.in_vals] keeps [arg_v.value], an integer, not
    the pointer object. *)
Definition collect_arg (cmp : Z) (idx : Z) : M unit :=
  arg_v ← odla_GetArgFromComputationByIdx cmp idx;
  t ← odla_GetValueType arg_v;
  modify (set_vt (Some t));;
  modify (upd_self
            (fun o => set_in_vals (in_vals o ++ [(c_void_p_value arg_v, t)]) o)).

(** Lines 164-167: body of the loop binding [data[idx]].  The handle
    [v[0]] is the integer kept in [self.in_vals]; it is passed as an [int]
    argument. *)
Definition bind_arg (data : list buffer) (c : Z) (iv : Z * (Z * ValueType))
  : M unit :=
  d ← getitem data iv.1;
  odla_BindToArgument (c_int_arg iv.2.1) d c.

(** The local [vt]: unbound if the argument loop never ran. *)
Definition local_vt : M ValueType := fun w =>
  match vt w with
  | Some t => (w, Ok t)
  | None => (w, Raise UnboundLocalError)
  end.

(** Lines 171-184: body of the loop over the declared outputs. *)
Definition bind_output (cmp c : Z) (idx : Z) : M unit :=
  out ← odla_GetOutputFromComputationByIdx cmp idx;
  vs ← odla_GetRuntimeShape c out;
  n ← lift (element_count vs);
  t ← local_vt;
  modify (upd_self (fun o => set_out_vals (out_vals o ++ [(out, t, n)]) o));;
  buf ← c_float_array n;
  odla_BindToOutput out buf c;;
  modify (upd_self (fun o => set_buffers (buffers o ++ [buf]) o)).

(** Lines 157-167. *)
Definition bind_inputs (data : list buffer) (cmp c : Z) : M unit :=
  modify (upd_self (set_in_vals []));;
  nargs ← getattr nr_args;
  for_each (range nargs) (collect_arg cmp);;
  w ← get;
  for_each (enumerate (in_vals (self w))) (bind_arg data c).

(** Lines 170-184. *)
Definition bind_outputs (cmp c : Z) : M unit :=
  modify (upd_self (set_out_vals []));;
  nouts ← getattr nr_outputs;
  for_each (range nouts) (bind_output cmp c).

(** [Execute] starts with a fresh frame: [vt] is unbound.  [self.h] is
    read for every native call and never assigned here, so the lookup is
    made once, where the first call is. *)
Definition Execute (data : list buffer) : M pyref :=
  modify (set_vt None);;
  getattr_h;;
  cmp ← getattr comp;
  c ← set_shapes cmp;
  bind_inputs data cmp c;;
  bind_outputs cmp c;;
  odla_ExecuteComputation cmp c;;
  mret self_buffers.

(** [__del__], lines 63-68.  A null [c_void_p] is false. *)
Definition __del__ : M unit :=
  w ← get;
  if h (self w) then
    c ← getattr ctx;
    (if bool_decide (c ≠ 0) then odla_DestroyContext c else mret tt);;
    cmp ← getattr comp;
    (if bool_decide (cmp ≠ 0) then odla_DestroyComputation cmp else mret tt)
  else mret tt.

End ODLA.

(** * Vocabulary of the properties *)

(** [m] relates every start state to its end state by [R], whatever the
    outcome. *)
Definition preserves (R : relation World) {A} (m : M A) : Prop :=
  forall w, R w (m w).1.

(** [m] raises Python's own exceptions only. *)
Definition raises_builtin {A} (m : M A) : Prop :=
  forall w e, (m w).2 = Raise e -> builtin e = true.

(** Any call but [odla_ExecuteComputation]. *)
Definition not_execute (c : NativeCall) : bool :=
  match c with ExecuteComputation _ _ => false | _ => true end.

(** An array that still holds only zero bytes. *)
Definition zeroed (b : buffer) : bool := forallb (Byte.eqb x00) b.

(** Nothing was run: the calls added do not contain
    [odla_ExecuteComputation], and the memory only gained arrays that are
    still zero-filled. *)
Definition quiet (w w' : World) : Prop :=
  (exists l, calls (native w') = calls (native w) ++ l
             /\ forallb not_execute l = true)
  /\ (exists zs, memory w' = memory w ++ zs /\ forallb zeroed zs = true).

(** The attributes set by [Load] are left alone. *)
Record stable (w w' : World) : Prop := mkStable {
  stable_h : h (self w') = h (self w);
  stable_comp : comp (self w') = comp (self w);
  stable_nr_args : nr_args (self w') = nr_args (self w);
  stable_nr_outputs : nr_outputs (self w') = nr_outputs (self w)
}.

(** What the steps after the shape set-up keep: the call log only grows,
    the registered shape information, the handle counter and [self.ctx]
    stay, and context [c] keeps its runtime shapes. *)
Record frame (c : Z) (w w' : World) : Prop := mkFrame {
  frame_calls : calls (native w) `prefix_of` calls (native w');
  frame_ctx : ctx (self w') = ctx (self w);
  frame_items : items (native w') = items (native w);
  frame_shape_info : shape_info (native w') = shape_info (native w);
  frame_next_handle : next_handle (native w') = next_handle (native w);
  frame_rt_shapes :
    rt_shapes (context_of c w') = rt_shapes (context_of c w);
  frame_live :
    is_Some (contexts (native w) !! c) -> is_Some (contexts (native w') !! c)
}.

(** The argument loop and everything after the input binding keep the
    buffers bound to the arguments of context [c]. *)
Definition keeps_args (c : Z) (w w' : World) : Prop :=
  bound_args (context_of c w') = bound_args (context_of c w).

(** The steps after the argument loop keep [self.in_vals] and [vt]. *)
Record keeps_locals (w w' : World) : Prop := mkKeepsLocals {
  keeps_in_vals : in_vals (self w') = in_vals (self w);
  keeps_vt : vt w' = vt w
}.

(** The input binding keeps the memory, [self.buffers] and the outputs
    bound to context [c]. *)
Record keeps_mem (c : Z) (w w' : World) : Prop := mkKeepsMem {
  keeps_memory : memory w' = memory w;
  keeps_buffers : buffers (self w') = buffers (self w);
  keeps_bound_outs :
    bound_outs (context_of c w') = bound_outs (context_of c w)
}.

(** The native calls of lines 144-154, for computation [cmp] and the new
    context [c]. *)
Definition shape_calls (lib : SharedObject) (cmp c : Z) : list NativeCall :=
  let v := so_arg lib input0_idx in
  [ GetArgFromComputationByIdx cmp input0_idx;
    SetComputationItem cmp ODLA_DYNAMIC_SHAPE true;
    SetValueShapeInfo v ODLA_MIN_SHAPE input0_min_shape;
    SetValueShapeInfo v ODLA_MAX_SHAPE input0_max_shape;
    SetValueShapeInfo v ODLA_OPT_SHAPE input0_opt_shape;
    CreateContext c;
    SetRuntimeShape c v input0_real_shape ].

(** The state [wA] reached from [w] by the shape set-up. *)
Record shapes_set (lib : SharedObject) (cmp : Z) (w wA : World) : Prop :=
  mkShapesSet {
  ss_calls :
    calls (native wA)
    = calls (native w) ++ shape_calls lib cmp (next_handle (native w));
  ss_min : shape_info (native wA) !! (so_arg lib input0_idx, ODLA_MIN_SHAPE)
           = Some input0_min_shape;
  ss_max : shape_info (native wA) !! (so_arg lib input0_idx, ODLA_MAX_SHAPE)
           = Some input0_max_shape;
  ss_opt : shape_info (native wA) !! (so_arg lib input0_idx, ODLA_OPT_SHAPE)
           = Some input0_opt_shape;
  ss_context :
    contexts (native wA) !! next_handle (native w)
    = Some (mkContext [(so_arg lib input0_idx, input0_real_shape)] [] []);
  ss_ctx : ctx (self wA) = Some (next_handle (native w));
  ss_next_handle : next_handle (native wA) = next_handle (native w) + 1;
  ss_memory : memory wA = memory w;
  ss_buffers : buffers (self wA) = buffers (self w);
  ss_vt : vt wA = vt w
}.

(** The entry of [self.in_vals] for argument [idx]. *)
Definition in_val (lib : SharedObject) (idx : Z) : Z * ValueType :=
  (c_void_p_value (so_arg lib idx), so_value_type lib (so_arg lib idx)).

(** The handle [odla_BindToArgument] receives for argument [idx]: the
    stored [arg_v.value], converted as an [int] argument. *)
Definition bound_handle (lib : SharedObject) (idx : Z) : Z :=
  c_int_arg (c_void_p_value (so_arg lib idx)).

(** [enumerate] from a start index. *)
Definition enumerate_from {A} (k : nat) (xs : list A) : list (Z * A) :=
  zip (Z.of_nat <$> seq k (length xs)) xs.

(** The shape the runtime resolves for output [idx] in context [c]. *)
Definition resolved_shape (lib : SharedObject) (rt : list (Z * ValueShape))
    (idx : Z) : ValueShape :=
  so_runtime_shape lib rt (so_output lib idx).

(** The element count the loop computes for it (0 if the loop raises). *)
Definition count (lib : SharedObject) (rt : list (Z * ValueShape)) (idx : Z)
  : Z :=
  match element_count (resolved_shape lib rt idx) with
  | Ok n => n
  | Raise _ => 0
  end.

(** [(c_float * n)()] as allocated. *)
Definition zero_array (n : Z) : buffer :=
  repeat x00 (Z.to_nat (n * sizeof_c_float)).

(** One iteration that ran to its end, for an output of [n] elements. *)
Record output_bound (lib : SharedObject) (cmp c idx : Z) (t : ValueType)
    (n : Z) (w w' : World) : Prop := mkOutputBound {
  ob_out_vals :
    out_vals (self w') = out_vals (self w) ++ [(so_output lib idx, t, n)];
  ob_memory : memory w' = memory w ++ [zero_array n];
  ob_buffers : buffers (self w') = buffers (self w) ++ [length (memory w)];
  ob_bound_outs :
    bound_outs (context_of c w')
    = bound_outs (context_of c w) ++ [(so_output lib idx, length (memory w))];
  ob_calls :
    calls (native w')
    = calls (native w)
      ++ [ GetOutputFromComputationByIdx cmp idx;
           GetRuntimeShape c (so_output lib idx);
           BindToOutput (so_output lib idx) (length (memory w)) c ];
  ob_rt_shapes : rt_shapes (context_of c w') = rt_shapes (context_of c w);
  ob_live : is_Some (contexts (native w') !! c);
  ob_vt : vt w' = vt w
}.

(** What a run leaves in the array bound to output value [o]. *)
Definition output_bytes (lib : SharedObject) (cmp : Z) (cx : Context) (o : Z)
    (z : buffer) : buffer :=
  fit (length z)
    (so_compute lib cmp (rt_shapes cx) (bound_args cx) o (length z)).

(** [Load] has run: the library is open and the computation, with its
    argument and output counts, is recorded on the object. *)
Record loaded (w : World) (cmp na no : Z) : Prop := mkLoaded {
  loaded_h : h (self w) = true;
  loaded_comp : comp (self w) = Some cmp;
  loaded_nr_args : nr_args (self w) = Some na;
  loaded_nr_outputs : nr_outputs (self w) = Some no
}.

(** The state a successful [Execute] leaves behind. *)
Record executed (lib : SharedObject) (data : list buffer) (cmp na no : Z)
    (w w' : World) : Prop := mkExecuted {
  ex_enough : (length (range na) <= length data)%nat;
  ex_ctx : ctx (self w') = Some (next_handle (native w));
  ex_next_handle : next_handle (native w') = next_handle (native w) + 1;
  ex_rt_shapes :
    rt_shapes (context_of (next_handle (native w)) w')
    = [(so_arg lib input0_idx, input0_real_shape)];
  ex_bound_args :
    bound_args (context_of (next_handle (native w)) w')
    = zip (bound_handle lib <$> range na) data;
  ex_bound_outs :
    bound_outs (context_of (next_handle (native w)) w')
    = zip (so_output lib <$> range no)
        (seq (length (memory w)) (length (range no)));
  ex_buffers :
    buffers (self w')
    = buffers (self w) ++ seq (length (memory w)) (length (range no));
  ex_memory :
    memory w'
    = memory w
      ++ zip_with
           (output_bytes lib cmp
              (context_of (next_handle (native w)) w'))
           (so_output lib <$> range no)
           (zero_array
              <$> (count lib [(so_arg lib input0_idx, input0_real_shape)]
                     <$> range no));
  ex_in_vals : in_vals (self w') = in_val lib <$> range na;
  ex_out_vals :
    forall i, last (range na) = Some i ->
      out_vals (self w')
      = (fun idx =>
           (so_output lib idx, so_value_type lib (so_arg lib i),
            count lib [(so_arg lib input0_idx, input0_real_shape)] idx))
          <$> range no;
  ex_vt : range no <> [] -> range na <> []
}.

(** The first [size] dimensions of a shape. *)
Definition first_dims (vs : ValueShape) : list Z :=
  take (Z.to_nat (size vs)) (dims vs).

Fixpoint all_le (a b : list Z) : bool :=
  match a, b with
  | [], [] => true
  | x :: a', y :: b' => (x <=? y) && all_le a' b'
  | _, _ => false
  end.

(** Same rank, and dimension by dimension [a[i] <= b[i]]. *)
Definition shape_le (a b : ValueShape) : bool :=
  all_le (first_dims a) (first_dims b).

(** Every declared argument and output has a buffer bound in [cx]. *)
Definition fully_bound (lib : SharedObject) (na no : Z) (cx : Context)
  : bool :=
  forallb (fun idx => bool_decide (so_arg lib idx ∈ (bound_args cx).*1))
    (range na)
  && forallb (fun idx => bool_decide (so_output lib idx ∈ (bound_outs cx).*1))
       (range no).

(** The contents, in [w'], of the arrays appended to [self.buffers] between
    [w] and [w']: the output buffers of that run. *)
Definition run_outputs (w w' : World) : list buffer :=
  (fun b => default [] (memory w' !! b))
    <$> drop (length (buffers (self w))) (buffers (self w')).

(** A detector with one dynamic 4-D float input (element-type code 1) and
    one output declared with 8-byte elements (code 2) whose shape resolves
    to [[1, 2]]; a run fills each output array with the byte 1. *)
Definition detector : SharedObject :=
  mkSharedObject 1 1 (fun i => 100 + i) (fun i => 200 + i)
    (fun v => if v <? 200
              then mkValueType 1 (mkValueShape 4 (dims_array [-1; 3; -1; -1]))
              else mkValueType 2 (mkValueShape 2 (dims_array [-1; -1])))
    (fun rt v => mkValueShape 2 (dims_array [1; 2]))
    (fun code => if code =? 2 then 8 else 4)
    (fun cmp rt args out cap => repeat x01 cap)
    (fun held bytes => true).

(** The object after [ODLAModel(so_file)] and [Load()]. *)
Definition detector_loaded : World := (Load detector __init__).1.

(** Handles a call log creates and destroys. *)
Definition created_contexts (l : list NativeCall) : list Z :=
  omap (fun c => match c with CreateContext x => Some x | _ => None end) l.
Definition created_computations (l : list NativeCall) : list Z :=
  omap (fun c => match c with CreateComputation x => Some x | _ => None end) l.
Definition destroyed_contexts (l : list NativeCall) : list Z :=
  omap (fun c => match c with DestroyContext x => Some x | _ => None end) l.
Definition destroyed_computations (l : list NativeCall) : list Z :=
  omap (fun c => match c with DestroyComputation x => Some x | _ => None end) l.

(** How often handle [x] occurs in [l]. *)
Definition occurrences (x : Z) (l : list Z) : nat :=
  length (filter (fun y => y = x) l).

(** [Load(); Execute(data) (k times); __del__()] on a fresh object.  An
    exception in [Execute] ends the script; the object is still finalised. *)
Fixpoint executes (lib : SharedObject) (data : list buffer) (k : nat)
  : M unit :=
  match k with
  | O => mret tt
  | S k' => Execute lib data ;; executes lib data k'
  end.

Definition lifecycle (lib : SharedObject) (data : list buffer) (k : nat)
  : World * result unit :=
  let w := (Load lib ;; executes lib data k) __init__ in
  __del__ w.1.

(** The output bytes of a run, from the computation and the input alone. *)
Definition expected_outputs (lib : SharedObject) (cmp na no : Z)
    (data : list buffer) : list buffer :=
  let rt := [(so_arg lib input0_idx, input0_real_shape)] in
  let args := zip (bound_handle lib <$> range na) data in
  (fun idx =>
     let cap := length (zero_array (count lib rt idx)) in
     fit cap (so_compute lib cmp rt args (so_output lib idx) cap))
    <$> range no.



(** A call that neither creates nor destroys a handle. *)
Definition plain_call (c : NativeCall) : bool :=
  match c with
  | CreateComputation _ | CreateContext _
  | DestroyContext _ | DestroyComputation _ => false
  | _ => true
  end.

(** Only such calls were added to the log. *)
Definition plain (w w' : World) : Prop :=
  exists l, calls (native w') = calls (native w) ++ l
            /\ forallb plain_call l = true.

(** The product of a list of dimensions. *)
Definition product (ds : list Z) : Z := fold_right Z.mul 1 ds.

(** The arrays held when the output loop reaches output [idx], entered
    with the arrays [mem]: one zero-filled array for each output before. *)
Definition held_before (lib : SharedObject) (rt : list (Z * ValueShape))
    (mem : list buffer) (idx : Z) : list buffer :=
  mem ++ (zero_array <$> (count lib rt <$> range idx)).

(** What [(c_float * n)()] raises, if anything, when the arrays [mem] are
    held: the length must fit [Py_ssize_t] and be non-negative, the byte
    size must fit [Py_ssize_t], and the bytes must be available. *)
Definition array_error (lib : SharedObject) (mem : list buffer) (n : Z)
    : option PyError :=
  if (n <? - 2 ^ 63) || (PY_SSIZE_T_MAX <? n) then Some OverflowError
  else if n <? 0 then Some ValueError
  else if PY_SSIZE_T_MAX <? n * sizeof_c_float then Some OverflowError
  else if so_allocates lib mem (n * sizeof_c_float) then None
  else Some MemoryError.

(** What the body of the output loop raises for output [idx], if anything:
    the inner loop may index past the ten dimensions, the local [vt] may be
    unbound, and the array may be refused. *)
Definition output_error (lib : SharedObject) (rt : list (Z * ValueShape))
    (vt_bound : bool) (mem : list buffer) (idx : Z) : option PyError :=
  match element_count (resolved_shape lib rt idx) with
  | Raise e => Some e
  | Ok n =>
      if negb vt_bound then Some UnboundLocalError
      else array_error lib mem n
  end.

(** The first exception of the output loop over [idxs], entered with the
    arrays [mem]: every output that passes adds its array. *)
Fixpoint first_error (lib : SharedObject) (rt : list (Z * ValueShape))
    (vt_bound : bool) (mem : list buffer) (idxs : list Z) : option PyError :=
  match idxs with
  | [] => None
  | idx :: rest =>
      match output_error lib rt vt_bound mem idx with
      | Some e => Some e
      | None =>
          first_error lib rt vt_bound
            (mem ++ [zero_array (count lib rt idx)]) rest
      end
  end.

(** Whether the local [vt] is bound. *)
Definition vt_bound (w : World) : bool :=
  match vt w with Some _ => true | None => false end.

(** How [Execute(data)] ends on a loaded model with [na] declared arguments
    and [no] declared outputs, entered with the arrays [mem]. *)
Definition Execute_outcome (lib : SharedObject) (na no : Z)
    (data : list buffer) (mem : list buffer) : result pyref :=
  if Z.of_nat (length data) <? na then Raise IndexError
  else
    match first_error lib [(so_arg lib input0_idx, input0_real_shape)]
            (0 <? na) mem (range no) with
    | Some e => Raise e
    | None => Ok self_buffers
    end.


(** The detector behind handles that do not fit a C [int]: argument [i]
    is the pointer [2^32 + 100 + i]. *)
Definition wide_net : SharedObject :=
  mkSharedObject 1 1 (fun i => 2 ^ 32 + 100 + i) (fun i => 200 + i)
    (fun v => mkValueType 1 (mkValueShape 4 (dims_array [-1; 3; -1; -1])))
    (fun rt v => mkValueShape 2 (dims_array [1; 2]))
    (fun code => 4)
    (fun cmp rt args out cap => repeat x01 cap)
    (fun held bytes => true).

(** Every declared argument handle reaches [odla_BindToArgument]
    unchanged: it is a non-negative C [int]. *)
Definition int_handles (lib : SharedObject) (na : Z) : Prop :=
  forall idx, 0 <= idx < na -> 0 <= so_arg lib idx < 2 ^ 31.

(** A model whose output keeps a dynamic dimension: its shape resolves to
    [[-1, 5]]. *)
Definition unresolved_net : SharedObject :=
  mkSharedObject 1 1 (fun i => 100 + i) (fun i => 200 + i)
    (fun v => mkValueType 1 (mkValueShape 4 (dims_array [-1; 3; -1; -1])))
    (fun rt v => mkValueShape 2 (dims_array [-1; 5]))
    (fun code => 4)
    (fun cmp rt args out cap => repeat x01 cap)
    (fun held bytes => true).

(** A model without arguments and with one output of shape [[1, 2]]. *)
Definition constant_net : SharedObject :=
  mkSharedObject 0 1 (fun i => 100 + i) (fun i => 200 + i)
    (fun v => mkValueType 1 (mkValueShape 2 (dims_array [1; 2])))
    (fun rt v => mkValueShape 2 (dims_array [1; 2]))
    (fun code => 4)
    (fun cmp rt args out cap => repeat x01 cap)
    (fun held bytes => true).

(** The call log was only extended. *)
Definition grows (w w' : World) : Prop :=
  calls (native w) `prefix_of` calls (native w').

(** One method call on the object. *)
Inductive step (lib : SharedObject) : World -> World -> Prop :=
  | step_Load w : step lib w (Load lib w).1
  | step_Execute data w : step lib w (Execute lib data w).1
  | step_del w : step lib w (__del__ w).1.

(** The states of an object created by [ODLAModel(so_file)] after any
    sequence of method calls, whatever their outcomes. *)
Inductive reachable (lib : SharedObject) : World -> Prop :=
  | reachable_init : reachable lib __init__
  | reachable_step w w' :
      reachable lib w -> step lib w w' -> reachable lib w'.

(** Between [w] and [w'] some arrays were allocated and their references
    appended to [self.buffers], in allocation order. *)
Definition sync (w w' : World) : Prop :=
  exists k : nat,
    length (memory w') = (length (memory w) + k)%nat
    /\ buffers (self w') = buffers (self w) ++ seq (length (memory w)) k.

(** The attributes of the object and the memory are as before. *)
Definition untouched (w w' : World) : Prop :=
  self w' = self w /\ memory w' = memory w.

(** What holds of the object in every reachable state. *)
Record consistent (w : World) : Prop := mkConsistent {
  cons_buffers : buffers (self w) = seq 0 (length (memory w));
  cons_loaded :
    h (self w) = true -> exists cmp na no, loaded w cmp na no;
  cons_unloaded :
    h (self w) = false -> comp (self w) = None /\ ctx (self w) = None
}.

(** * Properties *)

(** ** The configuration enumeration *)

Lemma item_of_code_item_code (i : odla_item) : item_of_code (item_code i) = Some i.
Proof. destruct i; reflexivity. Qed.

Lemma item_code_range (i : odla_item) : 0 <= item_code i <= 20.
Proof. destruct i; simpl; unfold item_code; cbv; split; discriminate. Qed.

Lemma item_code_of_code (c : Z) (i : odla_item) :
  item_of_code c = Some i -> item_code i = c.
Proof.
  unfold item_of_code. destruct (0 <=? c) eqn:H0; [|discriminate].
  destruct (c <? 21) eqn:H1; [|discriminate]. simpl.
  apply Z.leb_le in H0. apply Z.ltb_lt in H1.
  assert (Hc : c = Z.of_nat (Z.to_nat c)) by lia.
  assert (Hn : (Z.to_nat c < 21)%nat) by lia.
  revert Hc. generalize (Z.to_nat c) Hn. intros n Hn' ->.
  do 21 (destruct n as [|n]; [simpl; intros [= <-]; reflexivity|]). lia.
Qed.

(** ** Generic rules for the monad *)

Lemma bind_unfold {A B} (m : M A) (f : A -> M B) (w : World) :
  (m ≫= f) w = match m w with
                | (w', Ok a) => f a w'
                | (w', Raise e) => (w', Raise e)
                end.
Proof. reflexivity. Qed.

Section Rules.
Context (R : relation World) `{!PreOrder R}.

Lemma preserves_ret {A} (a : A) : preserves R (mret a).
Proof. intros w. simpl. reflexivity. Qed.

Lemma preserves_raise {A} (e : PyError) : preserves R (@raise A e).
Proof. intros w. simpl. reflexivity. Qed.

Lemma preserves_get : preserves R get.
Proof. intros w. simpl. reflexivity. Qed.

Lemma preserves_lift {A} (r : result A) : preserves R (lift r).
Proof. intros w. simpl. reflexivity. Qed.

Lemma preserves_getattr {A} (f : ODLAModel -> option A) :
  preserves R (getattr f).
Proof. intros w. unfold getattr. destruct (f (self w)); simpl; reflexivity. Qed.

Lemma preserves_getattr_h : preserves R getattr_h.
Proof. intros w. unfold getattr_h. destruct (h (self w)); simpl; reflexivity. Qed.

Lemma preserves_getitem {A} (l : list A) (i : Z) : preserves R (getitem l i).
Proof. intros w. unfold getitem. destruct (l !! _); simpl; reflexivity. Qed.

Lemma preserves_local_vt : preserves R local_vt.
Proof. intros w. unfold local_vt. destruct (vt w); simpl; reflexivity. Qed.

Lemma preserves_modify (f : World -> World) :
  (forall w, R w (f w)) -> preserves R (modify f).
Proof. intros Hf w. apply Hf. Qed.

Lemma preserves_bind {A B} (m : M A) (f : A -> M B) :
  preserves R m -> (forall a, preserves R (f a)) -> preserves R (m ≫= f).
Proof.
  intros Hm Hf w. rewrite bind_unfold. specialize (Hm w).
  destruct (m w) as [w1 [a|e]]; simpl in *; [|assumption].
  etransitivity; [eassumption|apply Hf].
Qed.

Lemma preserves_for_each {A} (xs : list A) (body : A -> M unit) :
  (forall x, preserves R (body x)) -> preserves R (for_each xs body).
Proof.
  intros Hb. induction xs as [|x xs IH]; simpl.
  - apply preserves_ret.
  - apply preserves_bind; auto.
Qed.
End Rules.

Lemma raises_builtin_ret {A} (a : A) : raises_builtin (mret a).
Proof. intros w e. discriminate. Qed.

Lemma raises_builtin_raise {A} (e : PyError) :
  builtin e = true -> raises_builtin (@raise A e).
Proof. intros He w e' [= <-]. exact He. Qed.

Lemma raises_builtin_modify (f : World -> World) : raises_builtin (modify f).
Proof. intros w e. discriminate. Qed.

Lemma raises_builtin_get : raises_builtin get.
Proof. intros w e. discriminate. Qed.

Lemma raises_builtin_bind {A B} (m : M A) (f : A -> M B) :
  raises_builtin m -> (forall a, raises_builtin (f a)) ->
  raises_builtin (m ≫= f).
Proof.
  intros Hm Hf w e. rewrite bind_unfold. specialize (Hm w).
  destruct (m w) as [w1 [a|e1]]; simpl in *; [apply Hf|].
  intros [= <-]. auto.
Qed.

Lemma raises_builtin_for_each {A} (xs : list A) (body : A -> M unit) :
  (forall x, raises_builtin (body x)) -> raises_builtin (for_each xs body).
Proof.
  intros Hb. induction xs as [|x xs IH]; simpl.
  - apply raises_builtin_ret.
  - apply raises_builtin_bind; auto.
Qed.

(** ** Relations between the state before and after a step *)

#[global] Instance quiet_preorder : PreOrder quiet.
Proof.
  split.
  - intros w. split; exists []; rewrite app_nil_r; auto.
  - intros w1 w2 w3 [[l1 [E1 F1]] [z1 [M1 Z1]]] [[l2 [E2 F2]] [z2 [M2 Z2]]].
    split.
    + exists (l1 ++ l2). rewrite E2, E1, <- app_assoc, forallb_app, F1, F2. auto.
    + exists (z1 ++ z2). rewrite M2, M1, <- app_assoc, forallb_app, Z1, Z2. auto.
Qed.

#[global] Instance stable_preorder : PreOrder stable.
Proof.
  split.
  - intros w. split; reflexivity.
  - intros w1 w2 w3 [] []. split; congruence.
Qed.

#[global] Instance frame_preorder c : PreOrder (frame c).
Proof.
  split.
  - intros w. split; auto.
  - intros w1 w2 w3 [] []. split; try congruence; auto.
    etransitivity; eassumption.
Qed.

#[global] Instance keeps_args_preorder c : PreOrder (keeps_args c).
Proof.
  unfold keeps_args. split.
  - intros w. reflexivity.
  - intros w1 w2 w3 H1 H2. congruence.
Qed.

#[global] Instance keeps_locals_preorder : PreOrder keeps_locals.
Proof.
  split.
  - intros w. split; auto.
  - intros w1 w2 w3 [] []. split; congruence.
Qed.

#[global] Instance keeps_mem_preorder c : PreOrder (keeps_mem c).
Proof.
  split.
  - intros w. split; auto.
  - intros w1 w2 w3 [] []. split; congruence.
Qed.

(** Looking up a context after one of its fields was extended. *)
Lemma lookup_alter_default (f : Context -> Context) (c : Z)
    (m : gmap Z Context) :
  default empty_context (alter f c m !! c)
  = match m !! c with Some cx => f cx | None => empty_context end.
Proof. rewrite lookup_alter_eq. destruct (m !! c); reflexivity. Qed.

(** ** Every step of [Execute] in terms of the relations *)

Ltac rule1 R :=
  lazymatch goal with
  | |- preserves _ (_ ≫= _) => apply (preserves_bind R); [|intros ?]
  | |- preserves _ (mret _) => apply (preserves_ret R)
  | |- preserves _ get => apply (preserves_get R)
  | |- preserves _ (lift _) => apply (preserves_lift R)
  | |- preserves _ (getattr _) => apply (preserves_getattr R)
  | |- preserves _ getattr_h => apply (preserves_getattr_h R)
  | |- preserves _ (getitem _ _) => apply (preserves_getitem R)
  | |- preserves _ local_vt => apply (preserves_local_vt R)
  | |- preserves _ (raise _) => apply (preserves_raise R)
  | |- preserves _ (for_each _ _) => apply (preserves_for_each R); intros ?
  | |- preserves _ (modify _) => apply (preserves_modify R); intros ?
  | |- preserves _ (if _ then _ else _) => case_match
  end.
Ltac rules R := repeat rule1 R.

Ltac unfold_steps :=
  unfold bind_inputs, bind_outputs, set_shapes, collect_arg, bind_arg,
    bind_output, c_float_array, odla_CreateContext, fresh_handle,
    odla_GetArgFromComputationByIdx, odla_GetOutputFromComputationByIdx,
    odla_SetComputationItem, odla_SetValueShapeInfo, odla_SetRuntimeShape,
    odla_GetValueType, odla_BindToArgument, odla_GetRuntimeShape,
    odla_BindToOutput, odla_ExecuteComputation, upd_context, call.

Lemma zeroed_repeat (k : nat) : zeroed (repeat x00 k) = true.
Proof. induction k; simpl; auto. Qed.

Ltac solve_quiet :=
  split;
  [ first [ exists []; rewrite app_nil_r; split; reflexivity
          | eexists [_]; split; reflexivity ]
  | first [ exists []; rewrite app_nil_r; split; reflexivity
          | eexists [_]; split; [reflexivity|]; simpl;
            rewrite zeroed_repeat; reflexivity ] ].

Lemma quiet_set_shapes lib cmp : preserves quiet (set_shapes lib cmp).
Proof. unfold_steps. rules quiet; solve_quiet. Qed.

Lemma quiet_bind_inputs lib data cmp c :
  preserves quiet (bind_inputs lib data cmp c).
Proof. unfold_steps. rules quiet; solve_quiet. Qed.

Lemma quiet_bind_outputs lib cmp c : preserves quiet (bind_outputs lib cmp c).
Proof. unfold_steps. rules quiet; solve_quiet. Qed.

Ltac solve_stable := split; reflexivity.

Lemma stable_set_shapes lib cmp : preserves stable (set_shapes lib cmp).
Proof. unfold_steps. rules stable; solve_stable. Qed.

Lemma stable_bind_inputs lib data cmp c :
  preserves stable (bind_inputs lib data cmp c).
Proof. unfold_steps. rules stable; solve_stable. Qed.

Lemma stable_bind_outputs lib cmp c : preserves stable (bind_outputs lib cmp c).
Proof. unfold_steps. rules stable; solve_stable. Qed.

Lemma stable_ExecuteComputation lib cmp c :
  preserves stable (odla_ExecuteComputation lib cmp c).
Proof. unfold_steps. rules stable; solve_stable. Qed.

Lemma context_of_alter (f : Context -> Context) (c : Z) (w : World) :
  context_of c (upd_native
                  (fun n => set_contexts (alter f c (contexts n)) n) w)
  = match contexts (native w) !! c with
    | Some cx => f cx
    | None => empty_context
    end.
Proof. unfold context_of. simpl. apply lookup_alter_default. Qed.

Ltac solve_frame :=
  split;
  [ first [ reflexivity | simpl; apply prefix_app_r; reflexivity ]
  | reflexivity | reflexivity | reflexivity | reflexivity
  | first [ reflexivity
          | rewrite context_of_alter; unfold context_of;
            destruct (contexts _ !! _); reflexivity ]
  | first [ intros ?; assumption
          | simpl; rewrite lookup_alter_eq; intros [? ->]; eexists; reflexivity ]
  ].

Lemma frame_bind_inputs lib data cmp c :
  preserves (frame c) (bind_inputs lib data cmp c).
Proof. unfold_steps. rules (frame c); solve_frame. Qed.

Lemma frame_bind_outputs lib cmp c :
  preserves (frame c) (bind_outputs lib cmp c).
Proof. unfold_steps. rules (frame c); solve_frame. Qed.

Lemma frame_ExecuteComputation lib cmp c :
  preserves (frame c) (odla_ExecuteComputation lib cmp c).
Proof. unfold_steps. rules (frame c); solve_frame. Qed.

Ltac solve_context :=
  first [ reflexivity
        | rewrite context_of_alter; unfold context_of;
          destruct (contexts _ !! _); reflexivity ].

Lemma keeps_args_collect lib cmp c idxs :
  preserves (keeps_args c) (for_each idxs (collect_arg lib cmp)).
Proof. unfold_steps. rules (keeps_args c); unfold keeps_args; solve_context. Qed.

Lemma keeps_args_bind_outputs lib cmp c :
  preserves (keeps_args c) (bind_outputs lib cmp c).
Proof. unfold_steps. rules (keeps_args c); unfold keeps_args; solve_context. Qed.

Lemma keeps_args_ExecuteComputation lib cmp c :
  preserves (keeps_args c) (odla_ExecuteComputation lib cmp c).
Proof. unfold_steps. rules (keeps_args c); unfold keeps_args; solve_context. Qed.

Lemma keeps_locals_bind_args data c ivs :
  preserves keeps_locals (for_each ivs (bind_arg data c)).
Proof. unfold_steps. rules keeps_locals; split; reflexivity. Qed.

Lemma keeps_mem_bind_inputs lib data cmp c :
  preserves (keeps_mem c) (bind_inputs lib data cmp c).
Proof.
  unfold_steps. rules (keeps_mem c); split; try reflexivity; solve_context.
Qed.

(** *** Exceptions *)

Lemma mul_dims_raises (ds rs : list Z) (n : Z) (e : PyError) :
  mul_dims ds rs n = Raise e -> e = IndexError.
Proof.
  revert n. induction rs as [|r rs IH]; simpl; intros n; [discriminate|].
  destruct (ds !! Z.to_nat r); [apply IH|]. congruence.
Qed.

Lemma raises_builtin_lift_element_count (vs : ValueShape) :
  raises_builtin (lift (element_count vs)).
Proof.
  intros w e. unfold lift, element_count. simpl.
  intros H%mul_dims_raises. subst. reflexivity.
Qed.

Lemma raises_builtin_getattr {A} (f : ODLAModel -> option A) :
  raises_builtin (getattr f).
Proof.
  intros w e. unfold getattr. destruct (f (self w)); simpl; [discriminate|].
  intros [= <-]. reflexivity.
Qed.

Lemma raises_builtin_getattr_h : raises_builtin getattr_h.
Proof.
  intros w e. unfold getattr_h. destruct (h (self w)); simpl; [discriminate|].
  intros [= <-]. reflexivity.
Qed.

Lemma raises_builtin_getitem {A} (l : list A) (i : Z) :
  raises_builtin (getitem l i).
Proof.
  intros w e. unfold getitem. destruct (l !! _); simpl; [discriminate|].
  intros [= <-]. reflexivity.
Qed.

Lemma raises_builtin_local_vt : raises_builtin local_vt.
Proof.
  intros w e. unfold local_vt. destruct (vt w); simpl; [discriminate|].
  intros [= <-]. reflexivity.
Qed.

Ltac brule1 :=
  lazymatch goal with
  | |- raises_builtin (_ ≫= _) => apply raises_builtin_bind; [|intros ?]
  | |- raises_builtin (mret _) => apply raises_builtin_ret
  | |- raises_builtin get => apply raises_builtin_get
  | |- raises_builtin (lift (element_count _)) =>
      apply raises_builtin_lift_element_count
  | |- raises_builtin (getattr _) => apply raises_builtin_getattr
  | |- raises_builtin getattr_h => apply raises_builtin_getattr_h
  | |- raises_builtin (getitem _ _) => apply raises_builtin_getitem
  | |- raises_builtin local_vt => apply raises_builtin_local_vt
  | |- raises_builtin (raise _) => apply raises_builtin_raise; reflexivity
  | |- raises_builtin (for_each _ _) =>
      apply raises_builtin_for_each; intros ?
  | |- raises_builtin (modify _) => apply raises_builtin_modify
  | |- raises_builtin (if _ then _ else _) => case_match
  end.

Lemma raises_builtin_Execute lib data : raises_builtin (Execute lib data).
Proof. unfold Execute. unfold_steps. repeat brule1. Qed.

(** *** The shape set-up (lines 136-154) *)

Lemma set_shapes_spec lib cmp w :
  exists wA, set_shapes lib cmp w = (wA, Ok (next_handle (native w)))
             /\ shapes_set lib cmp w wA.
Proof.
  eexists. split; [reflexivity|]. split; simpl; try reflexivity.
  - rewrite <- !app_assoc. reflexivity.
  - rewrite lookup_insert_ne by (unfold ODLA_OPT_SHAPE, ODLA_MIN_SHAPE; congruence).
    rewrite lookup_insert_ne by (unfold ODLA_MAX_SHAPE, ODLA_MIN_SHAPE; congruence).
    apply lookup_insert_eq.
  - rewrite lookup_insert_ne by (unfold ODLA_OPT_SHAPE, ODLA_MAX_SHAPE; congruence).
    apply lookup_insert_eq.
  - apply lookup_insert_eq.
  - rewrite lookup_alter_eq, lookup_insert_eq. reflexivity.
Qed.

(** *** The argument loop (lines 158-163) *)

Lemma collect_arg_spec lib cmp idx w :
  exists w', collect_arg lib cmp idx w = (w', Ok tt)
    /\ in_vals (self w') = in_vals (self w) ++ [in_val lib idx]
    /\ vt w' = Some (so_value_type lib (so_arg lib idx)).
Proof. eexists. split; [reflexivity|]. split; reflexivity. Qed.

Lemma collect_loop lib cmp idxs : forall w,
  exists w', for_each idxs (collect_arg lib cmp) w = (w', Ok tt)
    /\ in_vals (self w') = in_vals (self w) ++ (in_val lib <$> idxs)
    /\ vt w' = from_option (fun i => Some (so_value_type lib (so_arg lib i)))
                 (vt w) (last idxs).
Proof.
  induction idxs as [|idx idxs IH]; intros w.
  - exists w. simpl. rewrite app_nil_r. auto.
  - destruct (collect_arg_spec lib cmp idx w) as (w1 & E1 & I1 & V1).
    destruct (IH w1) as (w' & E & I & V).
    exists w'. simpl for_each. rewrite bind_unfold, E1, E.
    split; [reflexivity|]. split.
    + rewrite I, I1, <- app_assoc. reflexivity.
    + rewrite V, V1. destruct idxs as [|i2 idxs]; [reflexivity|].
      change (last (idx :: i2 :: idxs)) with (last (i2 :: idxs)).
      destruct (last (i2 :: idxs)) eqn:L; [reflexivity|].
      apply last_None in L. discriminate.
Qed.

(** *** The input binding loop (lines 164-167) *)

Lemma bind_arg_spec data c k iv w :
  is_Some (contexts (native w) !! c) ->
  match data !! k with
  | Some d =>
      exists w', bind_arg data c (Z.of_nat k, iv) w = (w', Ok tt)
        /\ is_Some (contexts (native w') !! c)
        /\ bound_args (context_of c w')
           = bound_args (context_of c w) ++ [(c_int_arg iv.1, d)]
        /\ calls (native w')
           = calls (native w) ++ [BindToArgument (c_int_arg iv.1) d c]
  | None => bind_arg data c (Z.of_nat k, iv) w = (w, Raise IndexError)
  end.
Proof.
  intros [cx Hcx]. unfold bind_arg. rewrite bind_unfold. unfold getitem.
  simpl. rewrite Nat2Z.id. destruct (data !! k) as [d|]; [|reflexivity].
  eexists. split; [reflexivity|]. split; [|split].
  - simpl. rewrite lookup_alter_eq, Hcx. eexists. reflexivity.
  - rewrite context_of_alter. simpl. unfold context_of. simpl.
    rewrite Hcx. reflexivity.
  - reflexivity.
Qed.

Lemma enumerate_from_0 {A} (xs : list A) : enumerate xs = enumerate_from 0 xs.
Proof. unfold enumerate, enumerate_from, range. rewrite Nat2Z.id. reflexivity. Qed.

Lemma bind_loop data c ivs : forall k w,
  (k <= length data)%nat ->
  is_Some (contexts (native w) !! c) ->
  if decide (k + length ivs <= length data)%nat then
    exists w', for_each (enumerate_from k ivs) (bind_arg data c) w = (w', Ok tt)
      /\ bound_args (context_of c w')
         = bound_args (context_of c w)
           ++ zip (c_int_arg <$> ivs.*1) (take (length ivs) (drop k data))
      /\ calls (native w')
         = calls (native w)
           ++ zip_with (fun iv d => BindToArgument (c_int_arg iv.1) d c) ivs
                (drop k data)
  else
    exists w', for_each (enumerate_from k ivs) (bind_arg data c) w
               = (w', Raise IndexError).
Proof.
  induction ivs as [|iv ivs IH]; intros k w Hle Hc.
  - simpl. case_decide as Hk.
    + exists w. simpl. rewrite !app_nil_r. auto.
    + lia.
  - unfold enumerate_from. simpl length. simpl seq. simpl zip.
    simpl for_each. rewrite bind_unfold.
    pose proof (bind_arg_spec data c k iv w Hc) as Hs.
    destruct (data !! k) as [d|] eqn:Hd.
    + destruct Hs as (w1 & E1 & Hc1 & B1 & C1). rewrite E1.
      apply lookup_lt_Some in Hd as Hlt.
      specialize (IH (S k) w1 Hlt Hc1). unfold enumerate_from in IH.
      case_decide as Hk; case_decide as Hk'; try lia.
      * destruct IH as (w' & E & B & C). exists w'. split; [exact E|].
        rewrite B, B1, C, C1, <- !app_assoc.
        rewrite (drop_S _ _ _ Hd). simpl. auto.
      * destruct IH as (w' & E). exists w'. exact E.
    + rewrite Hs. apply lookup_ge_None in Hd.
      case_decide; [simpl in *; lia|]. eexists. reflexivity.
Qed.

(** *** The output loop (lines 171-184) *)

Lemma bind_output_cases lib cmp c idx w :
  is_Some (contexts (native w) !! c) ->
  match element_count (resolved_shape lib (rt_shapes (context_of c w)) idx)
  with
  | Raise e => (bind_output lib cmp c idx w).2 = Raise e
  | Ok n =>
      match vt w with
      | None => (bind_output lib cmp c idx w).2 = Raise UnboundLocalError
      | Some t =>
          match array_error lib (memory w) n with
          | Some e => (bind_output lib cmp c idx w).2 = Raise e
          | None => exists w', bind_output lib cmp c idx w = (w', Ok tt)
                               /\ output_bound lib cmp c idx t n w w'
          end
      end
  end.
Proof.
  intros [cx Hcx]. unfold bind_output, resolved_shape, array_error.
  unfold odla_GetOutputFromComputationByIdx, odla_GetRuntimeShape,
    odla_BindToOutput, upd_context, call, local_vt, c_float_array.
  unfold mbind, M_bind, mret, M_ret, get, modify, lift, raise. cbn.
  change (context_of c (upd_native _ w)) with (context_of c w).
  destruct (element_count _) as [n|e]; [|reflexivity].
  destruct (vt w) as [t|]; [|reflexivity].
  destruct ((n <? - 2 ^ 63) || (PY_SSIZE_T_MAX <? n)); [reflexivity|].
  destruct (n <? 0); [reflexivity|].
  destruct (PY_SSIZE_T_MAX <? _); [reflexivity|].
  cbn. destruct (so_allocates lib (memory w) _); [|reflexivity].
  eexists. split; [reflexivity|].
  split; unfold context_of; simpl; try reflexivity.
  - rewrite lookup_alter_eq, Hcx. reflexivity.
  - rewrite <- !app_assoc. reflexivity.
  - rewrite lookup_alter_eq, Hcx. reflexivity.
  - rewrite lookup_alter_eq, Hcx. eexists; reflexivity.
Qed.

Lemma bind_outputs_loop lib cmp c idxs : forall w w',
  is_Some (contexts (native w) !! c) ->
  for_each idxs (bind_output lib cmp c) w = (w', Ok tt) ->
  let rt := rt_shapes (context_of c w) in
  let bufs := seq (length (memory w)) (length idxs) in
  memory w' = memory w ++ (zero_array <$> (count lib rt <$> idxs))
  /\ buffers (self w') = buffers (self w) ++ bufs
  /\ bound_outs (context_of c w')
     = bound_outs (context_of c w) ++ zip (so_output lib <$> idxs) bufs
  /\ (forall t, vt w = Some t ->
        out_vals (self w')
        = out_vals (self w)
          ++ ((fun idx => (so_output lib idx, t, count lib rt idx)) <$> idxs))
  /\ (idxs <> [] -> is_Some (vt w)).
Proof.
  induction idxs as [|idx idxs IH]; intros w w' Hc.
  - simpl. intros [= <-]. rewrite !app_nil_r. repeat split; auto. congruence.
  - simpl for_each. rewrite bind_unfold.
    pose proof (bind_output_cases lib cmp c idx w Hc) as Hs.
    destruct (bind_output lib cmp c idx w) as [w1 [[]|e]] eqn:E1;
      [|discriminate].
    intros Hrest. cbn zeta.
    destruct (element_count _) as [n|e] eqn:Hn; [|discriminate].
    assert (Hcount : count lib (rt_shapes (context_of c w)) idx = n)
      by (unfold count; rewrite Hn; reflexivity).
    destruct (vt w) as [t|] eqn:Ht; [|discriminate].
    destruct (array_error lib (memory w) n); [discriminate|].
    destruct Hs as (w1' & [= <-] & Hb). destruct Hb.
    specialize (IH w1 w' ob_live0 Hrest). cbn zeta in IH.
    rewrite ob_rt_shapes0, ob_memory0, ob_buffers0, ob_bound_outs0,
      ob_vt0, ob_out_vals0 in IH.
    destruct IH as (Hm & Hbuf & Hbo & Hov & _).
    rewrite length_app in Hbuf, Hbo. simpl in Hbuf, Hbo.
    rewrite Nat.add_1_r in Hbuf, Hbo.
    rewrite Hm, Hbuf, Hbo, <- !app_assoc. simpl. rewrite Hcount.
    repeat split; auto.
    intros t' [= <-]. rewrite (Hov t Ht), <- app_assoc. reflexivity.
Qed.

(** *** The run (line 188) *)

Lemma length_fit (cap : nat) (bs : buffer) : length (fit cap bs) = cap.
Proof.
  unfold fit. rewrite length_take, length_app, repeat_length. lia.
Qed.

(** Writing to arrays that were allocated one after the other. *)
Lemma write_outputs_fresh lib cmp cx os : forall m0 zs,
  length os = length zs ->
  fold_left (write_output lib cmp cx) (zip os (seq (length m0) (length zs)))
    (m0 ++ zs)
  = m0 ++ zip_with (output_bytes lib cmp cx) os zs.
Proof.
  induction os as [|o os IH]; intros m0 [|z zs] Hlen; try discriminate.
  - reflexivity.
  - simpl in Hlen. injection Hlen as Hlen. simpl.
    unfold write_output at 2. simpl.
    rewrite (list_lookup_middle m0 zs z (length m0) eq_refl). simpl.
    rewrite <- (Nat.add_0_r (length m0)) at 2. rewrite insert_app_r. simpl.
    specialize (IH (m0 ++ [output_bytes lib cmp cx o z]) zs Hlen).
    rewrite length_app in IH. simpl in IH. rewrite Nat.add_1_r in IH.
    rewrite <- !app_assoc in IH. simpl in IH. exact IH.
Qed.

Lemma ExecuteComputation_spec lib cmp c w :
  exists w', odla_ExecuteComputation lib cmp c w = (w', Ok tt)
    /\ memory w'
       = fold_left (write_output lib cmp (context_of c w))
           (bound_outs (context_of c w)) (memory w)
    /\ self w' = self w
    /\ contexts (native w') = contexts (native w)
    /\ next_handle (native w') = next_handle (native w).
Proof. eexists. split; [reflexivity|]. repeat split. Qed.

(** *** [Execute] as the sequence of its phases *)

Lemma loaded_stable w w' cmp na no :
  stable w w' -> loaded w cmp na no -> loaded w' cmp na no.
Proof. intros [] []. split; congruence. Qed.

Lemma Execute_unfold lib data w cmp :
  h (self w) = true -> comp (self w) = Some cmp ->
  Execute lib data w
  = let c := next_handle (native w) in
    let wA := (set_shapes lib cmp (set_vt None w)).1 in
    match bind_inputs lib data cmp c wA with
    | (wC, Raise e) => (wC, Raise e)
    | (wC, Ok _) =>
        match bind_outputs lib cmp c wC with
        | (wD, Raise e) => (wD, Raise e)
        | (wD, Ok _) =>
            ((odla_ExecuteComputation lib cmp c wD).1, Ok self_buffers)
        end
    end.
Proof.
  intros Hh Hc. unfold Execute. rewrite bind_unfold.
  change (modify (set_vt None) w) with (set_vt None w, Ok tt).
  cbv beta iota. rewrite bind_unfold.
  replace (getattr_h (set_vt None w)) with (set_vt None w, Ok tt)
    by (unfold getattr_h; simpl; rewrite Hh; reflexivity).
  cbv beta iota. rewrite bind_unfold.
  replace (getattr comp (set_vt None w)) with (set_vt None w, Ok cmp)
    by (unfold getattr; simpl; rewrite Hc; reflexivity).
  cbv beta iota. rewrite bind_unfold.
  destruct (set_shapes_spec lib cmp (set_vt None w)) as (wA & EA & _).
  rewrite EA. cbv beta iota zeta. cbn [fst]. rewrite bind_unfold.
  change (next_handle (native (set_vt None w)))
    with (next_handle (native w)).
  destruct (bind_inputs lib data cmp _ wA) as [wC [[]|e]]; [|reflexivity].
  rewrite bind_unfold.
  destruct (bind_outputs lib cmp _ wC) as [wD [[]|e]]; [|reflexivity].
  rewrite bind_unfold.
  destruct (ExecuteComputation_spec lib cmp (next_handle (native w)) wD)
    as (wE & EE & _).
  rewrite EE. reflexivity.
Qed.

Lemma frame_collect lib cmp c idxs :
  preserves (frame c) (for_each idxs (collect_arg lib cmp)).
Proof. unfold_steps. rules (frame c); solve_frame. Qed.

Lemma bind_inputs_spec lib data cmp c w na :
  nr_args (self w) = Some na ->
  is_Some (contexts (native w) !! c) ->
  if decide (length (range na) <= length data)%nat then
    exists w', bind_inputs lib data cmp c w = (w', Ok tt)
      /\ bound_args (context_of c w')
         = bound_args (context_of c w)
           ++ zip (bound_handle lib <$> range na) data
      /\ in_vals (self w') = in_val lib <$> range na
      /\ vt w' = from_option
                   (fun i => Some (so_value_type lib (so_arg lib i)))
                   (vt w) (last (range na))
  else
    exists w', bind_inputs lib data cmp c w = (w', Raise IndexError).
Proof.
  intros Hna Hc. unfold bind_inputs. rewrite bind_unfold.
  set (w0 := upd_self (set_in_vals []) w).
  change (modify (upd_self (set_in_vals [])) w) with (w0, Ok tt).
  cbv beta iota. rewrite bind_unfold.
  replace (getattr nr_args w0) with (w0, Ok na)
    by (unfold getattr; simpl; rewrite Hna; reflexivity).
  cbv beta iota. rewrite bind_unfold.
  destruct (collect_loop lib cmp (range na) w0) as (wB & EB & IB & VB).
  pose proof (frame_collect lib cmp c (range na) w0) as FB.
  pose proof (keeps_args_collect lib cmp c (range na) w0) as AB.
  rewrite EB in FB, AB. simpl in FB, AB. destruct FB. red in AB.
  rewrite EB. cbv beta iota. rewrite bind_unfold.
  change (get wB) with (wB, Ok wB). cbv beta iota.
  simpl in IB. rewrite IB, enumerate_from_0.
  pose proof (bind_loop data c (in_val lib <$> range na) 0 wB
                ltac:(lia) (frame_live0 Hc)) as HL.
  pose proof (keeps_locals_bind_args data c
                (enumerate_from 0 (in_val lib <$> range na)) wB) as LC.
  rewrite length_fmap in HL. simpl in HL.
  case_decide as Hlen.
  - destruct HL as (w' & E & B & _). exists w'. rewrite E in LC |- *.
    destruct LC as [LI LV]. simpl in LI, LV.
    split; [reflexivity|]. split; [|split].
    + rewrite B, AB, drop_0.
      rewrite zip_with_take_r' by (rewrite !length_fmap; lia).
      rewrite <- !list_fmap_compose. reflexivity.
    + rewrite LI, IB. reflexivity.
    + rewrite LV, VB. reflexivity.
  - destruct HL as (w' & E). exists w'. exact E.
Qed.

Lemma bind_outputs_spec lib cmp c w w' no :
  nr_outputs (self w) = Some no ->
  is_Some (contexts (native w) !! c) ->
  bind_outputs lib cmp c w = (w', Ok tt) ->
  let rt := rt_shapes (context_of c w) in
  let bufs := seq (length (memory w)) (length (range no)) in
  memory w' = memory w ++ (zero_array <$> (count lib rt <$> range no))
  /\ buffers (self w') = buffers (self w) ++ bufs
  /\ bound_outs (context_of c w')
     = bound_outs (context_of c w) ++ zip (so_output lib <$> range no) bufs
  /\ (forall t, vt w = Some t ->
        out_vals (self w')
        = (fun idx => (so_output lib idx, t, count lib rt idx)) <$> range no)
  /\ (range no <> [] -> is_Some (vt w)).
Proof.
  intros Hno Hc. unfold bind_outputs. rewrite bind_unfold.
  set (w0 := upd_self (set_out_vals []) w).
  change (modify (upd_self (set_out_vals [])) w) with (w0, Ok tt).
  cbv beta iota. rewrite bind_unfold.
  replace (getattr nr_outputs w0) with (w0, Ok no)
    by (unfold getattr; simpl; rewrite Hno; reflexivity).
  cbv beta iota. intros HL.
  apply (bind_outputs_loop lib cmp c (range no) w0 w' Hc) in HL.
  exact HL.
Qed.

Lemma keeps_locals_bind_outputs lib cmp c :
  preserves keeps_locals (bind_outputs lib cmp c).
Proof. unfold_steps. rules keeps_locals; split; reflexivity. Qed.

Lemma context_of_Some c w cx :
  contexts (native w) !! c = Some cx -> context_of c w = cx.
Proof. unfold context_of. intros ->. reflexivity. Qed.

Lemma Execute_ok lib data w w' r cmp na no :
  loaded w cmp na no ->
  Execute lib data w = (w', Ok r) ->
  executed lib data cmp na no w w'.
Proof.
  intros [Hh Hc Hna Hno]. rewrite (Execute_unfold lib data w cmp Hh Hc).
  cbv zeta. set (c := next_handle (native w)).
  destruct (set_shapes_spec lib cmp (set_vt None w)) as (wA & EA & SA).
  pose proof (stable_set_shapes lib cmp (set_vt None w)) as StA.
  rewrite EA in StA |- *. cbn [fst] in StA |- *.
  destruct SA, StA. simpl in * |-.
  fold c in ss_context0, ss_ctx0, ss_calls0, ss_next_handle0.
  assert (HcA : is_Some (contexts (native wA) !! c)) by eauto.
  pose proof (bind_inputs_spec lib data cmp c wA na
                ltac:(congruence) HcA) as HI.
  pose proof (frame_bind_inputs lib data cmp c wA) as FC.
  pose proof (keeps_mem_bind_inputs lib data cmp c wA) as MC.
  pose proof (stable_bind_inputs lib data cmp c wA) as StC.
  destruct (bind_inputs lib data cmp c wA) as [wC [[]|e]] eqn:EC;
    [|discriminate].
  cbn [fst] in FC, MC, StC. destruct FC, MC, StC.
  case_decide as Hlen;
    [|destruct HI as (? & [=])].
  destruct HI as (wC' & [= <-] & BC & IC & VC).
  pose proof (frame_bind_outputs lib cmp c wC) as FD.
  pose proof (keeps_args_bind_outputs lib cmp c wC) as AD.
  pose proof (stable_bind_outputs lib cmp c wC) as StD.
  pose proof (keeps_locals_bind_outputs lib cmp c wC) as LD.
  destruct (bind_outputs lib cmp c wC) as [wD [[]|e]] eqn:ED;
    [|discriminate].
  cbn [fst] in FD, AD, StD, LD. destruct FD, StD, LD. red in AD.
  apply (bind_outputs_spec lib cmp c wC wD no ltac:(congruence)
           (frame_live0 HcA)) in ED.
  cbv zeta in ED. destruct ED as (MD & BD & OD & VD & TD).
  destruct (ExecuteComputation_spec lib cmp c wD)
    as (wE & EE & ME & SE & CE & NE).
  rewrite EE. cbn [fst]. intros [= <- <-].
  rewrite (context_of_Some _ _ _ ss_context0) in *. simpl in * |-.
  assert (Hrt : rt_shapes (context_of c wD)
                = [(so_arg lib input0_idx, input0_real_shape)])
    by congruence.
  assert (Hcx : context_of c wE = context_of c wD)
    by (unfold context_of; rewrite CE; reflexivity).
  rewrite frame_rt_shapes0 in MD, VD.
  split; fold c; rewrite ?Hcx, ?SE; try congruence.
  - rewrite OD, keeps_bound_outs0, keeps_memory0, ss_memory0. reflexivity.
  - rewrite ME, OD, keeps_bound_outs0, MD, keeps_memory0, ss_memory0. simpl.
    rewrite <- (write_outputs_fresh lib cmp (context_of c wD)
                  (so_output lib <$> range no) (memory w)
                  (zero_array <$> (count lib _ <$> range no)))
      by (rewrite !length_fmap; reflexivity).
    rewrite !length_fmap. reflexivity.
  - intros i Hi. apply VD. rewrite VC, ss_vt0, Hi. reflexivity.
  - intros Hne Hna0. apply TD in Hne. rewrite VC, ss_vt0, Hna0 in Hne.
    simpl in Hne. destruct Hne as [? [=]].
Qed.

(** *** A failing [Execute] *)

Lemma raise_quiet_bind {A B} (m : M A) (f : A -> M B) :
  preserves quiet m ->
  (forall a w w' e, f a w = (w', Raise e) -> quiet w w') ->
  forall w w' e, (m ≫= f) w = (w', Raise e) -> quiet w w'.
Proof.
  intros Hm Hf w w' e. rewrite bind_unfold. specialize (Hm w).
  destruct (m w) as [w1 [a|e1]]; simpl in Hm.
  - intros H. etransitivity; [exact Hm|]. eapply Hf; exact H.
  - intros [= <- <-]. exact Hm.
Qed.

Lemma Execute_raise lib data w w' e :
  Execute lib data w = (w', Raise e) -> quiet w w' /\ builtin e = true.
Proof.
  intros H. split.
  - revert w w' e H. unfold Execute.
    apply raise_quiet_bind;
      [apply (preserves_modify quiet); intros w; split; exists [];
       rewrite app_nil_r; auto|intros _].
    apply raise_quiet_bind; [apply (preserves_getattr_h quiet)|intros _].
    apply raise_quiet_bind; [apply (preserves_getattr quiet)|intros cmp].
    apply raise_quiet_bind; [apply quiet_set_shapes|intros c].
    apply raise_quiet_bind; [apply quiet_bind_inputs|intros _].
    apply raise_quiet_bind; [apply quiet_bind_outputs|intros _].
    intros w w' e. discriminate.
  - apply (raises_builtin_Execute lib data w). rewrite H. reflexivity.
Qed.

(** Whatever the outcome, the shape set-up of [Execute] stays in place. *)
Lemma Execute_frame lib data w cmp :
  h (self w) = true -> comp (self w) = Some cmp ->
  exists wA, shapes_set lib cmp (set_vt None w) wA
    /\ frame (next_handle (native w)) wA (Execute lib data w).1
    /\ (forall na, nr_args (self w) = Some na ->
        (length (range na) <= length data)%nat ->
        bound_args (context_of (next_handle (native w))
                      (Execute lib data w).1)
        = zip (bound_handle lib <$> range na) data)
    /\ (forall na, nr_args (self w) = Some na ->
        (length data < length (range na))%nat ->
        (Execute lib data w).2 = Raise IndexError).
Proof.
  intros Hh Hc. rewrite (Execute_unfold lib data w cmp Hh Hc). cbv zeta.
  set (c := next_handle (native w)).
  destruct (set_shapes_spec lib cmp (set_vt None w)) as (wA & EA & SA).
  pose proof (stable_set_shapes lib cmp (set_vt None w)) as StA.
  rewrite EA in StA |- *. cbn [fst] in StA |- *. exists wA.
  split; [exact SA|]. destruct SA, StA. simpl in * |-.
  fold c in ss_context0.
  assert (HcA : is_Some (contexts (native wA) !! c)) by eauto.
  pose proof (frame_bind_inputs lib data cmp c wA) as FC.
  pose proof (frame_bind_outputs lib cmp c) as FD.
  pose proof (frame_ExecuteComputation lib cmp c) as FE.
  pose proof (keeps_args_bind_outputs lib cmp c) as AD.
  pose proof (keeps_args_ExecuteComputation lib cmp c) as AE.
  assert (HI : forall na, nr_args (self w) = Some na ->
     if decide (length (range na) <= length data)%nat then
       exists w', bind_inputs lib data cmp c wA = (w', Ok tt)
         /\ bound_args (context_of c w')
            = zip (bound_handle lib <$> range na) data
     else exists w', bind_inputs lib data cmp c wA = (w', Raise IndexError)).
  { intros na Hna.
    pose proof (bind_inputs_spec lib data cmp c wA na
                  ltac:(congruence) HcA) as HI.
    rewrite (context_of_Some _ _ _ ss_context0) in HI. simpl in HI.
    case_decide; [|exact HI].
    destruct HI as (w' & E & B & _). eauto. }
  destruct (bind_inputs lib data cmp c wA) as [wC [[]|e]] eqn:EC.
  - specialize (FD wC). specialize (AD wC).
    destruct (bind_outputs lib cmp c wC) as [wD [[]|e]] eqn:ED.
    + specialize (FE wD). specialize (AE wD). cbn [fst snd] in *.
      split; [etransitivity; [exact FC|]; etransitivity; eassumption|].
      split.
      * intros na Hna Hlen. specialize (HI na Hna).
        case_decide; [|lia]. destruct HI as (? & [= <-] & B).
        red in AD, AE. congruence.
      * intros na Hna Hlen. specialize (HI na Hna).
        case_decide; [lia|]. destruct HI as (? & [=]).
    + cbn [fst snd] in *. split; [etransitivity; eassumption|]. split.
      * intros na Hna Hlen. specialize (HI na Hna).
        case_decide; [|lia]. destruct HI as (? & [= <-] & B).
        red in AD. congruence.
      * intros na Hna Hlen. specialize (HI na Hna).
        case_decide; [lia|]. destruct HI as (? & [=]).
  - cbn [fst snd] in *. split; [exact FC|]. split.
    + intros na Hna Hlen. specialize (HI na Hna).
      case_decide; [|lia]. destruct HI as (? & [=] & _).
    + intros na Hna Hlen. specialize (HI na Hna).
      case_decide; [lia|]. destruct HI as (? & [= <- <-]). reflexivity.
Qed.

(** * The claims *)

(** ** C8 *)

(** C8.  The configuration options are exactly the 21 listed names; in the
    listed order their codes are the consecutive integers 0 to 20, which are
    pairwise distinct, and a code denotes an option exactly when it is one
    of these. *)
Theorem config_items_closed_enumeration :
  (forall i : odla_item, i ∈ all_items)
  /\ length all_items = 21%nat
  /\ item_code <$> all_items
     = [0; 1; 2; 3; 4; 5; 6; 7; 8; 9; 10; 11; 12; 13; 14; 15; 16; 17; 18;
        19; 20]
  /\ (forall i j : odla_item, item_code i = item_code j -> i = j)
  /\ (forall (c : Z) (i : odla_item),
        item_of_code c = Some i <-> item_code i = c)
  /\ item_code DYNAMIC_BATCH = 0 /\ item_code CACHE_DIR = 20.
Proof.
  repeat split.
  - intros i. apply list_elem_of_In. destruct i; simpl; tauto.
  - intros i j Hij.
    assert (Hi := item_of_code_item_code i).
    rewrite Hij, item_of_code_item_code in Hi. congruence.
  - apply item_code_of_code.
  - intros <-. apply item_of_code_item_code.
Qed.

(** ** C5 *)

(** C5.  On a loaded model, whatever [data] is and however [Execute] ends,
    the calls it issues start with the registration of the range
    min=[1,3,1,1], max=[1,3,1000,2000], opt=[1,3,960,1280] (rank 4) on the
    value of argument 0, followed by the creation of the context and the
    runtime shape [1,3,960,1280]; afterwards the registry holds exactly
    these three shapes for that value and the new context holds that
    runtime shape.  The range satisfies min <= opt <= max and the runtime
    shape lies within [min, max], dimension by dimension. *)
Theorem Execute_registers_input0_range lib data w cmp :
  h (self w) = true ->
  comp (self w) = Some cmp ->
  let w' := (Execute lib data w).1 in
  let v := so_arg lib 0 in
  let c := next_handle (native w) in
  (exists rest,
     calls (native w')
     = calls (native w)
       ++ [ GetArgFromComputationByIdx cmp 0;
            SetComputationItem cmp ODLA_DYNAMIC_SHAPE true;
            SetValueShapeInfo v ODLA_MIN_SHAPE input0_min_shape;
            SetValueShapeInfo v ODLA_MAX_SHAPE input0_max_shape;
            SetValueShapeInfo v ODLA_OPT_SHAPE input0_opt_shape;
            CreateContext c;
            SetRuntimeShape c v input0_real_shape ]
       ++ rest)
  /\ shape_info (native w') !! (v, ODLA_MIN_SHAPE) = Some input0_min_shape
  /\ shape_info (native w') !! (v, ODLA_MAX_SHAPE) = Some input0_max_shape
  /\ shape_info (native w') !! (v, ODLA_OPT_SHAPE) = Some input0_opt_shape
  /\ rt_shapes (context_of c w') = [(v, input0_real_shape)]
  /\ (size input0_min_shape = 4 /\ first_dims input0_min_shape = [1; 3; 1; 1])
  /\ (size input0_max_shape = 4
      /\ first_dims input0_max_shape = [1; 3; 1000; 2000])
  /\ (size input0_opt_shape = 4
      /\ first_dims input0_opt_shape = [1; 3; 960; 1280])
  /\ (size input0_real_shape = 4
      /\ first_dims input0_real_shape = [1; 3; 960; 1280])
  /\ shape_le input0_min_shape input0_opt_shape = true
  /\ shape_le input0_opt_shape input0_max_shape = true
  /\ shape_le input0_min_shape input0_real_shape = true
  /\ shape_le input0_real_shape input0_max_shape = true.
Proof.
  intros Hh Hc w' v c.
  destruct (Execute_frame lib data w cmp Hh Hc) as (wA & SA & FA & _).
  fold w' c in FA. destruct SA, FA. simpl in * |-.
  fold c in ss_context0. subst v. unfold input0_idx in *.
  split; [|repeat split; try reflexivity; try congruence].
  - destruct frame_calls0 as [rest Hrest]. exists rest.
    rewrite Hrest, ss_calls0, <- app_assoc. reflexivity.
  - rewrite frame_rt_shapes0, (context_of_Some _ _ _ ss_context0).
    reflexivity.
Qed.

Lemma Execute_registers_input0_range_witness :
  h (self detector_loaded) = true
  /\ comp (self detector_loaded) = Some 1
  /\ shape_info (native (Execute detector [[x00]] detector_loaded).1)
       !! (100, ODLA_MAX_SHAPE)
     = Some input0_max_shape.
Proof.
  split; [reflexivity|]. split; [reflexivity|].
  destruct (Execute_registers_input0_range detector [[x00]] detector_loaded 1
              eq_refl eq_refl) as (_ & _ & H & _).
  exact H.
Defined.

(** ** C10 *)

Lemma length_range (n : Z) : length (range n) = Z.to_nat n.
Proof. unfold range. rewrite length_fmap, length_seq. reflexivity. Qed.

Lemma range_lookup (n : Z) (i : nat) :
  (i < Z.to_nat n)%nat -> range n !! i = Some (Z.of_nat i).
Proof.
  intros Hi. unfold range. rewrite list_lookup_fmap.
  rewrite (proj2 (lookup_seq 0 (Z.to_nat n) i i)) by (split; [reflexivity|lia]).
  reflexivity.
Qed.

Lemma c_int_arg_small (v : Z) : 0 <= v < 2 ^ 31 -> c_int_arg v = v.
Proof.
  intros Hv. unfold c_int_arg. rewrite Z.mod_small by lia. lia.
Qed.

Lemma bound_handle_small lib idx :
  0 <= so_arg lib idx < 2 ^ 31 -> bound_handle lib idx = so_arg lib idx.
Proof.
  intros Hv. unfold bound_handle, c_void_p_value.
  rewrite Z.mod_small by lia. apply c_int_arg_small, Hv.
Qed.

Lemma bound_handles_small lib na :
  int_handles lib na -> bound_handle lib <$> range na = so_arg lib <$> range na.
Proof.
  intros Hh. apply list_fmap_ext. intros k idx Hk.
  apply bound_handle_small, Hh.
  apply lookup_lt_Some in Hk as Hlt. rewrite length_range in Hlt.
  rewrite range_lookup in Hk by exact Hlt. injection Hk as <-. lia.
Qed.

(** The argument bindings of [Execute] (lines 157-167).  [Execute] reads
    [data[idx]] for idx = 0 .. nr_args-1 without looking at [len(data)].
    If [data] has at least [nr_args] entries, the context ends up with
    exactly one binding per declared argument, in declared order, of
    [data[idx]] to the handle stored in [self.in_vals] as converted to a C
    [int], whatever happens later in the call; these are the declared
    handles when all of them are non-negative C [int]s.  If [data] has
    fewer entries, [Execute] raises [IndexError], no
    [odla_ExecuteComputation] call was issued and no array was written. *)
Theorem Execute_binds_converted_handles lib data w cmp na no :
  loaded w cmp na no ->
  let w' := (Execute lib data w).1 in
  let c := next_handle (native w) in
  (na <= Z.of_nat (length data) ->
     bound_args (context_of c w') = zip (bound_handle lib <$> range na) data
     /\ length (bound_args (context_of c w')) = Z.to_nat na
     /\ (forall idx d, 0 <= idx < na ->
           data !! Z.to_nat idx = Some d ->
           bound_args (context_of c w') !! Z.to_nat idx
           = Some (bound_handle lib idx, d))
     /\ (int_handles lib na ->
           bound_args (context_of c w') = zip (so_arg lib <$> range na) data))
  /\ (Z.of_nat (length data) < na ->
        (Execute lib data w).2 = Raise IndexError /\ quiet w w').
Proof.
  intros [Hh Hc Hna Hno] w' c.
  destruct (Execute_frame lib data w cmp Hh Hc) as (wA & _ & _ & HB & HR).
  fold w' c in HB. split.
  - intros Hle.
    assert (HB' := HB na Hna ltac:(rewrite length_range; lia)).
    rewrite HB'. split; [reflexivity|]. split; [|split].
    + rewrite length_zip_with, length_fmap, length_range. lia.
    + intros idx d Hidx Hd. rewrite lookup_zip_with, list_lookup_fmap.
      rewrite range_lookup by lia. simpl. rewrite Hd. simpl.
      rewrite Z2Nat.id by lia. reflexivity.
    + intros Hh'. rewrite (bound_handles_small lib na Hh'). reflexivity.
  - intros Hlt.
    assert (HR' := HR na Hna ltac:(rewrite length_range; lia)).
    split; [exact HR'|].
    destruct (Execute lib data w) as [w1 r1] eqn:E. simpl in HR'. subst r1.
    apply Execute_raise in E. apply E.
Qed.

Lemma Execute_binds_converted_handles_witness :
  loaded detector_loaded 1 1 1
  /\ bound_args (context_of 2 (Execute detector [[x05]] detector_loaded).1)
     = [(100, [x05])]
  /\ (Execute detector [] detector_loaded).2 = Raise IndexError.
Proof.
  assert (L : loaded detector_loaded 1 1 1) by (split; vm_compute; reflexivity).
  split; [exact L|]. split.
  - destruct (Execute_binds_converted_handles detector [[x05]] detector_loaded
                1 1 1 L) as [H _].
    destruct (H ltac:(vm_compute; discriminate)) as [H1 _].
    vm_compute in H1. vm_compute. exact H1.
  - destruct (Execute_binds_converted_handles detector [] detector_loaded
                1 1 1 L) as [_ H].
    destruct (H ltac:(vm_compute; reflexivity)) as [H1 _].
    vm_compute in H1. vm_compute. exact H1.
Defined.

(** C10 fails on the code.  The argument handle reaches
    [odla_BindToArgument] as the Python [int] [arg_v.value] (lines 163,
    165-167), which is converted to a C [int].  For a model whose argument 0
    is the pointer [2^32 + 100], [Execute([d])] with a [data] of the
    declared length binds [d] to the handle 100: the declared argument has
    no binding, the context is not fully bound, and [Execute] still issues
    [odla_ExecuteComputation] and returns normally. *)
Theorem Execute_wide_handle_binds_other_value :
  let w := (Load wide_net __init__).1 in
  let w' := (Execute wide_net [[x05]] w).1 in
  loaded w 1 1 1
  /\ so_arg wide_net 0 = 4294967396
  /\ in_vals (self w') = [(4294967396, so_value_type wide_net 4294967396)]
  /\ (Execute wide_net [[x05]] w).2 = Ok self_buffers
  /\ bound_args (context_of 2 w') = [(100, [x05])]
  /\ bool_decide (so_arg wide_net 0 ∈ (bound_args (context_of 2 w')).*1)
     = false
  /\ fully_bound wide_net 1 1 (context_of 2 w') = false
  /\ last (calls (native w')) = Some (ExecuteComputation 1 2).
Proof.
  cbv zeta. split; [split; vm_compute; reflexivity|].
  repeat split; vm_compute; reflexivity.
Qed.

(** ** C7 *)

Lemma executed_fully_bound lib data cmp na no w w' :
  int_handles lib na ->
  executed lib data cmp na no w w' ->
  fully_bound lib na no (context_of (next_handle (native w)) w') = true.
Proof.
  intros Hh []. unfold fully_bound.
  rewrite ex_bound_args0, ex_bound_outs0, (bound_handles_small lib na Hh).
  rewrite fst_zip by (rewrite length_fmap; exact ex_enough0).
  rewrite fst_zip by (rewrite length_fmap, length_seq; reflexivity).
  apply andb_true_intro. split; apply forallb_forall; intros idx Hidx;
    apply bool_decide_eq_true; apply list_elem_of_fmap; exists idx;
    (split; [reflexivity|apply list_elem_of_In; exact Hidx]).
Qed.

(** C7 as amended.  For a model whose declared argument handles are
    non-negative C [int]s: if, when [Execute] ends, the context it created
    is not fully bound (some declared argument or output has no buffer),
    then [Execute] has raised one of Python's own exceptions, never
    [NotReady]; no [odla_ExecuteComputation] call was issued and no array
    was written (the memory only gained zero-filled arrays). *)
Theorem Execute_unbound_fails_before_run lib data w cmp na no w' r :
  loaded w cmp na no ->
  int_handles lib na ->
  Execute lib data w = (w', r) ->
  fully_bound lib na no (context_of (next_handle (native w)) w') = false ->
  (exists e, r = Raise e /\ builtin e = true)
  /\ r <> Raise (EngineError NotReady)
  /\ quiet w w'.
Proof.
  intros L Hh E Hfb. destruct r as [p|e].
  - apply (Execute_ok lib data w w' p cmp na no L) in E.
    apply (executed_fully_bound _ _ _ _ _ _ _ Hh) in E. congruence.
  - apply Execute_raise in E. destruct E as [Q B].
    split; [eauto|]. split; [|exact Q].
    intros [= ->]. discriminate.
Qed.

Lemma Execute_unbound_fails_before_run_witness :
  loaded detector_loaded 1 1 1
  /\ int_handles detector 1
  /\ fully_bound detector 1 1
       (context_of 2 (Execute detector [] detector_loaded).1) = false
  /\ (Execute detector [] detector_loaded).2 <> Raise (EngineError NotReady).
Proof.
  assert (L : loaded detector_loaded 1 1 1) by (split; vm_compute; reflexivity).
  assert (F : fully_bound detector 1 1
                (context_of 2 (Execute detector [] detector_loaded).1) = false)
    by (vm_compute; reflexivity).
  assert (I : int_handles detector 1)
    by (intros idx Hidx; unfold detector; simpl; lia).
  split; [exact L|]. split; [exact I|]. split; [exact F|].
  refine (proj1 (proj2 (Execute_unbound_fails_before_run detector []
                          detector_loaded 1 1 1 _ _ L I _ F))).
  vm_compute. reflexivity.
Defined.

(** C7 as stated does not hold: with an empty [data] the context of the
    detector is not fully bound, and [Execute] fails with [IndexError],
    not with [NotReady]. *)
Lemma Execute_short_data_not_NotReady :
  fully_bound detector 1 1
    (context_of 2 (Execute detector [] detector_loaded).1) = false
  /\ (Execute detector [] detector_loaded).2 = Raise IndexError
  /\ (Execute detector [] detector_loaded).2 <> Raise (EngineError NotReady).
Proof. vm_compute. repeat split. discriminate. Qed.

(** ** C6 *)

Lemma lookups_fresh (l : list buffer) : forall m : list buffer,
  (fun b => default [] ((m ++ l) !! b)) <$> seq (length m) (length l) = l.
Proof.
  induction l as [|z l IH]; intros m; [reflexivity|]. simpl.
  rewrite (list_lookup_middle m l z (length m) eq_refl). simpl. f_equal.
  specialize (IH (m ++ [z])). rewrite length_app in IH. simpl in IH.
  rewrite Nat.add_1_r, <- app_assoc in IH. exact IH.
Qed.

Lemma run_outputs_executed lib data cmp na no w w' :
  executed lib data cmp na no w w' ->
  run_outputs w w' = expected_outputs lib cmp na no data.
Proof.
  intros []. unfold run_outputs, expected_outputs.
  rewrite ex_buffers0, drop_app_length, ex_memory0.
  set (l := zip_with _ _ _).
  assert (Hl : length l = length (range no))
    by (unfold l; rewrite length_zip_with, !length_fmap; lia).
  rewrite <- Hl, lookups_fresh. unfold l.
  rewrite zip_with_fmap_l, !zip_with_fmap_r, zip_with_diag. unfold output_bytes.
  rewrite ex_rt_shapes0, ex_bound_args0. reflexivity.
Qed.

(** C6.  Two calls of [Execute] on the same loaded model with the same
    input bytes, both returning normally: each call runs in a context of
    its own, and the output arrays of the second call hold the same bytes
    as the output arrays of the first. *)
Theorem Execute_twice_same_output_bytes lib data w0 w1 w2 r1 r2 cmp na no :
  loaded w0 cmp na no ->
  Execute lib data w0 = (w1, Ok r1) ->
  Execute lib data w1 = (w2, Ok r2) ->
  run_outputs w1 w2 = run_outputs w0 w1
  /\ length (run_outputs w0 w1) = Z.to_nat no
  /\ ctx (self w1) <> ctx (self w2).
Proof.
  intros L E1 E2.
  assert (L1 : loaded w1 cmp na no).
  { apply (loaded_stable w0); [|exact L].
    destruct L as [Hh Hc _ _].
    pose proof (Execute_unfold lib data w0 cmp Hh Hc) as U. cbv zeta in U.
    pose proof (stable_set_shapes lib cmp (set_vt None w0)) as S1.
    pose proof (stable_bind_inputs lib data cmp (next_handle (native w0))
                  (set_shapes lib cmp (set_vt None w0)).1) as S2.
    destruct (bind_inputs _ _ _ _ _) as [wC [[]|e]];
      [|rewrite E1 in U; discriminate].
    pose proof (stable_bind_outputs lib cmp (next_handle (native w0)) wC)
      as S3.
    destruct (bind_outputs _ _ _ _) as [wD [[]|e]];
      [|rewrite E1 in U; discriminate].
    pose proof (stable_ExecuteComputation lib cmp (next_handle (native w0))
                  wD) as S4.
    rewrite E1 in U. injection U as -> _.
    assert (S0 : stable w0 (set_vt None w0)) by (split; reflexivity).
    cbn [fst] in *.
    etransitivity; [exact S0|]. etransitivity; [exact S1|].
    etransitivity; [exact S2|]. etransitivity; [exact S3|exact S4]. }
  apply (Execute_ok lib data w0 w1 r1 cmp na no L) in E1.
  apply (Execute_ok lib data w1 w2 r2 cmp na no L1) in E2.
  rewrite (run_outputs_executed _ _ _ _ _ _ _ E1).
  rewrite (run_outputs_executed _ _ _ _ _ _ _ E2).
  split; [reflexivity|]. split.
  - unfold expected_outputs. rewrite length_fmap. apply length_range.
  - destruct E1, E2. rewrite ex_ctx0, ex_ctx1, ex_next_handle0.
    intros [= H]. lia.
Qed.

Lemma Execute_twice_same_output_bytes_witness :
  loaded detector_loaded 1 1 1
  /\ run_outputs (Execute detector [[x05]] detector_loaded).1
       (Execute detector [[x05]]
          (Execute detector [[x05]] detector_loaded).1).1
     = run_outputs detector_loaded
         (Execute detector [[x05]] detector_loaded).1.
Proof.
  assert (L : loaded detector_loaded 1 1 1) by (split; vm_compute; reflexivity).
  split; [exact L|].
  refine (proj1 (Execute_twice_same_output_bytes detector [[x05]]
                   detector_loaded _ _ self_buffers self_buffers 1 1 1
                   L _ _)); vm_compute; reflexivity.
Defined.

(** ** C9 *)

Lemma element_count_rank0 (vs : ValueShape) :
  size vs = 0 -> element_count vs = Ok 1.
Proof. unfold element_count. intros ->. reflexivity. Qed.




(** On a successful [Execute], an output whose resolved shape has [size] 0
    is recorded with one element and its array holds four bytes. *)
Lemma Execute_rank0_output lib data w w' r cmp na no k idx :
  loaded w cmp na no ->
  Execute lib data w = (w', Ok r) ->
  range no !! k = Some idx ->
  size (resolved_shape lib [(so_arg lib input0_idx, input0_real_shape)] idx)
  = 0 ->
  (exists t, out_vals (self w') !! k = Some (so_output lib idx, t, 1))
  /\ buffers (self w') !! (length (buffers (self w)) + k)%nat
     = Some (length (memory w) + k)%nat
  /\ length <$> memory w' !! (length (memory w) + k)%nat = Some 4%nat.
Proof.
  intros L E Hk Hsize. apply (Execute_ok _ _ _ _ _ _ _ _ L) in E.
  destruct E. apply lookup_lt_Some in Hk as Hlt.
  assert (Hcount : count lib [(so_arg lib input0_idx, input0_real_shape)] idx
                   = 1)
    by (unfold count; rewrite (element_count_rank0 _ Hsize); reflexivity).
  split; [|split].
  - destruct (last (range na)) as [i|] eqn:Hi.
    + exists (so_value_type lib (so_arg lib i)).
      rewrite (ex_out_vals0 i eq_refl), list_lookup_fmap, Hk. simpl.
      rewrite Hcount. reflexivity.
    + apply last_None in Hi. exfalso. apply ex_vt0; [|exact Hi].
      intros Hno. rewrite Hno in Hk. discriminate.
  - rewrite ex_buffers0, lookup_app_r by lia.
    replace (length (buffers (self w)) + k - length (buffers (self w)))%nat
      with k by lia.
    apply lookup_seq. split; [reflexivity|exact Hlt].
  - rewrite ex_memory0, lookup_app_r by lia.
    replace (length (memory w) + k - length (memory w))%nat with k by lia.
    rewrite lookup_zip_with, !list_lookup_fmap, Hk. simpl.
    unfold output_bytes. rewrite length_fit, Hcount. reflexivity.
Qed.

(** ** C1 *)

(** On every successful [Execute] with at least one declared argument, each
    record of [self.out_vals] carries the [ValueType] of the last argument:
    the local [vt] left over from the argument loop. *)
Lemma Execute_out_vals_stale_vt lib data w w' r cmp na no rec :
  loaded w cmp na no ->
  Execute lib data w = (w', Ok r) ->
  1 <= na ->
  rec ∈ out_vals (self w') ->
  rec.1.2 = so_value_type lib (so_arg lib (na - 1)).
Proof.
  intros L E Hna Hrec. apply (Execute_ok _ _ _ _ _ _ _ _ L) in E.
  destruct E.
  assert (Hlast : last (range na) = Some (na - 1)).
  { rewrite last_lookup, length_range.
    rewrite range_lookup by lia. f_equal. lia. }
  rewrite (ex_out_vals0 _ Hlast) in Hrec.
  apply list_elem_of_fmap in Hrec as (idx & -> & _). reflexivity.
Qed.

(** C1 fails on the code.  For the detector, [Execute] returns normally and
    the one record of [self.out_vals] pairs output 0 with the [ValueType] of
    input argument 0 (rank 4, dims [-1,3,-1,-1]); the shape resolved for
    that output is [1,2] (rank 2). *)
Theorem Execute_detector_out_vals :
  let w' := (Execute detector [[x05]] detector_loaded).1 in
  (Execute detector [[x05]] detector_loaded).2 = Ok self_buffers
  /\ out_vals (self w') = [(so_output detector 0, so_value_type detector (so_arg detector 0), 2)]
  /\ resolved_shape detector (rt_shapes (context_of 2 w')) 0
     = mkValueShape 2 [1; 2; 0; 0; 0; 0; 0; 0; 0; 0]
  /\ shape (so_value_type detector (so_arg detector 0))
     = mkValueShape 4 [-1; 3; -1; -1; 0; 0; 0; 0; 0; 0]
  /\ forall rec, rec ∈ out_vals (self w') ->
       shape rec.1.2
       <> resolved_shape detector (rt_shapes (context_of 2 w')) 0.
Proof.
  vm_compute. repeat split.
  intros rec Hrec. apply list_elem_of_In in Hrec.
  destruct Hrec as [<-|[]]. discriminate.
Qed.

(** ** C2 *)

(** On every successful [Execute], the array of output [idx] has
    [count * sizeof(c_float)] bytes, whatever the declared element type. *)
Lemma Execute_buffer_length lib data w w' r cmp na no k idx :
  loaded w cmp na no ->
  Execute lib data w = (w', Ok r) ->
  range no !! k = Some idx ->
  length <$> memory w' !! (length (memory w) + k)%nat
  = Some (Z.to_nat
            (count lib [(so_arg lib input0_idx, input0_real_shape)] idx
             * sizeof_c_float)).
Proof.
  intros L E Hk. apply (Execute_ok _ _ _ _ _ _ _ _ L) in E. destruct E.
  rewrite ex_memory0, lookup_app_r by lia.
  replace (length (memory w) + k - length (memory w))%nat with k by lia.
  rewrite lookup_zip_with, !list_lookup_fmap, Hk. simpl.
  unfold output_bytes. rewrite length_fit. unfold zero_array.
  rewrite repeat_length. reflexivity.
Qed.

(** C2 fails on the code.  Output 0 of the detector is declared with
    8-byte elements and resolves to 2 elements, so 16 bytes are due; the
    array [Execute] allocates and binds for it has 8 bytes. *)
Theorem Execute_detector_buffer_bytes :
  let w' := (Execute detector [[x05]] detector_loaded).1 in
  let declared := so_value_type detector (so_output detector 0) in
  (Execute detector [[x05]] detector_loaded).2 = Ok self_buffers
  /\ bound_outs (context_of 2 w') = [(so_output detector 0, 0%nat)]
  /\ element_count (resolved_shape detector (rt_shapes (context_of 2 w')) 0)
     = Ok 2
  /\ so_element_size detector (element_type declared) = 8
  /\ length <$> memory w' !! 0%nat = Some 8%nat
  /\ Z.of_nat 8 <> 2 * so_element_size detector (element_type declared).
Proof. vm_compute. repeat split. discriminate. Qed.

(** ** C3 *)

(** Every successful [Execute] appends one array per declared output to
    [self.buffers] and returns that list. *)
Lemma Execute_appends_buffers lib data w w' r cmp na no :
  loaded w cmp na no ->
  Execute lib data w = (w', Ok r) ->
  deref r w' = buffers (self w) ++ seq (length (memory w)) (Z.to_nat no)
  /\ length (deref r w') = (length (buffers (self w)) + Z.to_nat no)%nat.
Proof.
  intros L E. apply (Execute_ok _ _ _ _ _ _ _ _ L) in E as X. destruct X.
  destruct r. simpl. rewrite ex_buffers0, length_range. split; [reflexivity|].
  rewrite length_app, length_seq. reflexivity.
Qed.

(** C3 fails on the code from the second call on.  The detector declares
    one output; the first [Execute] returns one array, the second returns
    two (the array of the first call and a new one), and the list returned
    by the first call, being [self.buffers] itself, has grown too. *)
Theorem Execute_detector_twice_buffers :
  let '(w1, r1) := Execute detector [[x05]] detector_loaded in
  let '(w2, r2) := Execute detector [[x05]] w1 in
  so_nr_outputs detector = 1
  /\ r1 = Ok self_buffers /\ r2 = Ok self_buffers
  /\ deref self_buffers w1 = [0%nat]
  /\ deref self_buffers w2 = [0%nat; 1%nat]
  /\ length (deref self_buffers w2) <> Z.to_nat (so_nr_outputs detector).
Proof. vm_compute. repeat split. discriminate. Qed.

(** ** C4 *)

(** C4 fails on the code.  After [Load], two [Execute] calls and [__del__],
    the context of the first call (handle 2) was created and never
    destroyed.  After [Load] and [__del__] with no [Execute] in between,
    [__del__] raises [AttributeError] ([self.ctx] was never assigned) and
    the computation (handle 1) is never destroyed.  With exactly one
    [Execute], both handles are released once. *)
Theorem lifecycle_detector_handles :
  (let '(w, r) := lifecycle detector [[x05]] 2 in
   r = Ok tt
   /\ created_contexts (calls (native w)) = [2; 3]
   /\ destroyed_contexts (calls (native w)) = [3]
   /\ occurrences 2 (destroyed_contexts (calls (native w))) = 0%nat)
  /\ (let '(w, r) := lifecycle detector [[x05]] 0 in
      r = Raise AttributeError
      /\ created_computations (calls (native w)) = [1]
      /\ destroyed_computations (calls (native w)) = []
      /\ occurrences 1 (destroyed_computations (calls (native w))) = 0%nat)
  /\ (let '(w, r) := lifecycle detector [[x05]] 1 in
      r = Ok tt
      /\ created_contexts (calls (native w)) = [2]
      /\ destroyed_contexts (calls (native w)) = [2]
      /\ created_computations (calls (native w)) = [1]
      /\ destroyed_computations (calls (native w)) = [1]).
Proof. vm_compute. repeat split. Qed.

(** *** Handles over the life of the object *)

#[global] Instance plain_preorder : PreOrder plain.
Proof.
  split.
  - intros w. exists []. rewrite app_nil_r. auto.
  - intros w1 w2 w3 [l1 [E1 F1]] [l2 [E2 F2]]. exists (l1 ++ l2).
    rewrite E2, E1, <- app_assoc, forallb_app, F1, F2. auto.
Qed.

Ltac solve_plain :=
  first [ exists []; rewrite app_nil_r; split; reflexivity
        | eexists [_]; split; reflexivity ].

Lemma plain_bind_inputs lib data cmp c :
  preserves plain (bind_inputs lib data cmp c).
Proof. unfold_steps. rules plain; solve_plain. Qed.

Lemma plain_bind_outputs lib cmp c : preserves plain (bind_outputs lib cmp c).
Proof. unfold_steps. rules plain; solve_plain. Qed.

Lemma plain_ExecuteComputation lib cmp c :
  preserves plain (odla_ExecuteComputation lib cmp c).
Proof. unfold_steps. rules plain; solve_plain. Qed.

Lemma plain_calls_no_handles (l : list NativeCall) :
  forallb plain_call l = true ->
  created_contexts l = [] /\ destroyed_contexts l = []
  /\ created_computations l = [] /\ destroyed_computations l = [].
Proof.
  induction l as [|c l IH]; [auto|]. simpl. intros [Hc Hl]%andb_prop.
  destruct (IH Hl) as (H1 & H2 & H3 & H4).
  unfold created_contexts, destroyed_contexts, created_computations,
    destroyed_computations in *.
  destruct c; try discriminate; simpl; auto.
Qed.

(** What holds of the three phases after the shape set-up holds of the
    rest of [Execute], however it ends. *)
Lemma Execute_tail (R : relation World) `{!PreOrder R} lib data w cmp :
  h (self w) = true ->
  comp (self w) = Some cmp ->
  (forall c, preserves R (bind_inputs lib data cmp c)) ->
  (forall c, preserves R (bind_outputs lib cmp c)) ->
  (forall c, preserves R (odla_ExecuteComputation lib cmp c)) ->
  R (set_shapes lib cmp (set_vt None w)).1 (Execute lib data w).1.
Proof.
  intros Hh Hc HI HO HE.
  rewrite (Execute_unfold lib data w cmp Hh Hc). cbv zeta.
  set (c := next_handle (native w)).
  set (wA := (set_shapes lib cmp (set_vt None w)).1).
  specialize (HI c wA).
  destruct (bind_inputs lib data cmp c wA) as [wC [[]|e]]; [|exact HI].
  specialize (HO c wC).
  destruct (bind_outputs lib cmp c wC) as [wD [[]|e]];
    [|etransitivity; eassumption].
  specialize (HE c wD). cbn [fst] in *.
  etransitivity; [exact HI|]. etransitivity; eassumption.
Qed.

(** [Execute] on a loaded model, whatever its outcome, creates exactly one
    context, stores it in [self.ctx], destroys nothing and leaves the
    attributes set by [Load] alone. *)
Lemma Execute_creates_one_context lib data w cmp :
  h (self w) = true ->
  comp (self w) = Some cmp ->
  let w' := (Execute lib data w).1 in
  created_contexts (calls (native w'))
  = created_contexts (calls (native w)) ++ [next_handle (native w)]
  /\ destroyed_contexts (calls (native w'))
     = destroyed_contexts (calls (native w))
  /\ ctx (self w') = Some (next_handle (native w))
  /\ stable w w'.
Proof.
  intros Hh Hc w'.
  destruct (set_shapes_spec lib cmp (set_vt None w)) as (wA & EA & SA).
  pose proof (Execute_tail plain lib data w cmp Hh Hc
                (plain_bind_inputs lib data cmp) (plain_bind_outputs lib cmp)
                (plain_ExecuteComputation lib cmp)) as [l [Hl Hp]].
  pose proof (Execute_tail stable lib data w cmp Hh Hc
                (stable_bind_inputs lib data cmp) (stable_bind_outputs lib cmp)
                (stable_ExecuteComputation lib cmp)) as St.
  destruct (Execute_frame lib data w cmp Hh Hc) as (wA' & SA' & Fr & _).
  fold w' in Hl, St, Fr. rewrite EA in Hl, St. cbn [fst] in Hl, St.
  assert (Hctx : ctx (self w') = Some (next_handle (native w))).
  { destruct Fr as [_ Hctx _ _ _ _ _]. rewrite Hctx. apply SA'. }
  destruct SA as [Hcalls _ _ _ _ _ _ _ _ _]. simpl in Hcalls.
  apply plain_calls_no_handles in Hp as (Hcr & Hde & _).
  unfold created_contexts, destroyed_contexts in *.
  rewrite Hl, Hcalls, !omap_app, Hcr, Hde, !app_nil_r. simpl.
  rewrite ?app_nil_r.
  split; [reflexivity|]. split; [reflexivity|]. split; [exact Hctx|].
  pose proof (stable_set_shapes lib cmp (set_vt None w)) as StA.
  rewrite EA in StA. cbn [fst] in StA.
  etransitivity; [|exact St]. etransitivity; [|exact StA].
  split; reflexivity.
Qed.

(** [__del__] on an object whose [self.ctx] and [self.comp] hold non-null
    handles destroys exactly these two. *)
Lemma del_destroys_current w c cmp :
  h (self w) = true ->
  ctx (self w) = Some c -> c <> 0 ->
  comp (self w) = Some cmp -> cmp <> 0 ->
  exists w', __del__ w = (w', Ok tt)
    /\ destroyed_contexts (calls (native w'))
       = destroyed_contexts (calls (native w)) ++ [c]
    /\ created_contexts (calls (native w'))
       = created_contexts (calls (native w)).
Proof.
  intros Hh Hctx Hc Hcomp Hcmp. unfold __del__.
  rewrite bind_unfold. change (get w) with (w, Ok w). cbv beta iota.
  rewrite Hh, bind_unfold. unfold getattr at 1. rewrite Hctx.
  cbv beta iota. rewrite bind_unfold.
  rewrite (bool_decide_eq_true_2 _ Hc).
  set (w1 := (odla_DestroyContext c w).1).
  change (odla_DestroyContext c w) with (w1, Ok tt). cbv beta iota.
  rewrite bind_unfold. unfold getattr.
  change (comp (self w1)) with (comp (self w)). rewrite Hcomp.
  cbv beta iota. rewrite (bool_decide_eq_true_2 _ Hcmp).
  eexists. split; [reflexivity|].
  unfold created_contexts, destroyed_contexts. simpl.
  rewrite !omap_app. simpl. rewrite !app_nil_r. split; reflexivity.
Qed.

(** Two [Execute] calls on a loaded model, then [__del__]: the context of
    the first call was created and is never destroyed. *)
Lemma first_context_leaks lib d1 d2 w cmp na no :
  loaded w cmp na no ->
  cmp <> 0 ->
  0 < next_handle (native w) ->
  next_handle (native w) ∉ destroyed_contexts (calls (native w)) ->
  let w1 := (Execute lib d1 w).1 in
  let w2 := (Execute lib d2 w1).1 in
  let w3 := (__del__ w2).1 in
  next_handle (native w) ∈ created_contexts (calls (native w3))
  /\ next_handle (native w) ∉ destroyed_contexts (calls (native w3)).
Proof.
  intros [Hh Hc _ _] Hcmp Hpos Hfresh w1 w2 w3.
  destruct (Execute_creates_one_context lib d1 w cmp Hh Hc)
    as (C1 & D1 & X1 & S1).
  fold w1 in C1, D1, X1, S1. destruct S1 as [Hh1 Hc1 _ _].
  rewrite Hh in Hh1. rewrite Hc in Hc1.
  destruct (Execute_creates_one_context lib d2 w1 cmp Hh1 Hc1)
    as (C2 & D2 & X2 & S2).
  fold w2 in C2, D2, X2, S2. destruct S2 as [Hh2 Hc2 _ _].
  rewrite Hh1 in Hh2. rewrite Hc1 in Hc2.
  destruct (Execute_frame lib d1 w cmp Hh Hc) as (wA & SA & FA & _).
  fold w1 in FA.
  assert (Hn : next_handle (native w1) = next_handle (native w) + 1).
  { destruct FA as [_ _ _ _ Hn _ _]. rewrite Hn.
    destruct SA as [_ _ _ _ _ _ Hs _ _ _]. exact Hs. }
  destruct (del_destroys_current w2 (next_handle (native w1)) cmp Hh2 X2
              ltac:(lia) Hc2 Hcmp) as (w3' & E3 & D3 & C3).
  assert (w3 = w3') as -> by (unfold w3; rewrite E3; reflexivity).
  rewrite C3, C2, C1, D3, D2, D1. split.
  - rewrite !elem_of_app. left. right. apply list_elem_of_singleton.
    reflexivity.
  - rewrite elem_of_app. intros [H|H]; [exact (Hfresh H)|].
    apply list_elem_of_singleton in H. lia.
Qed.


(** * Further properties of the class *)

(** ** The element count (lines 176-178) *)

Lemma mul_dims_seq (ds : list Z) (k : nat) : forall (j : nat) (acc : Z),
  (j <= length ds)%nat ->
  mul_dims ds (Z.of_nat <$> seq j k) acc
  = if decide (j + k <= length ds)%nat
    then Ok (acc * product (take k (drop j ds)))
    else Raise IndexError.
Proof.
  induction k as [|k IH]; intros j acc Hj.
  - simpl. case_decide; [|lia]. rewrite Z.mul_1_r. reflexivity.
  - simpl. rewrite Nat2Z.id.
    destruct (ds !! j) as [d|] eqn:Hd.
    + apply lookup_lt_Some in Hd as Hlt. rewrite IH by lia.
      rewrite (drop_S _ _ _ Hd). simpl.
      repeat case_decide; try lia; try reflexivity.
      f_equal. unfold product. simpl. lia.
    + apply lookup_ge_None in Hd. case_decide; [lia|reflexivity].
Qed.

Lemma element_count_eq (vs : ValueShape) :
  element_count vs
  = if decide (Z.to_nat (size vs) <= length (dims vs))%nat
    then Ok (product (first_dims vs))
    else Raise IndexError.
Proof.
  unfold element_count, range, first_dims.
  rewrite mul_dims_seq by lia. rewrite drop_0. simpl.
  case_decide; [|reflexivity]. f_equal. lia.
Qed.

(** The element count computed for a shape: 1 when [size <= 0] (the loop
    does not run), the product of the first [size] dimensions when [size]
    is within the [dims] array, and [IndexError] when [size] exceeds it
    (for the ten-entry ctypes array: when [size > 10]). *)
Theorem element_count_spec (vs : ValueShape) :
  (size vs <= 0 -> element_count vs = Ok 1)
  /\ (0 <= size vs <= Z.of_nat (length (dims vs)) ->
      element_count vs = Ok (product (take (Z.to_nat (size vs)) (dims vs))))
  /\ (Z.of_nat (length (dims vs)) < size vs ->
      element_count vs = Raise IndexError).
Proof.
  rewrite element_count_eq. unfold first_dims. repeat split.
  - intros H. case_decide; [|lia].
    replace (Z.to_nat (size vs)) with 0%nat by lia. reflexivity.
  - intros H. case_decide; [reflexivity|lia].
  - intros H. case_decide; [lia|reflexivity].
Qed.

Lemma element_count_spec_witness :
  element_count (mkValueShape 3 (dims_array [2; 3; 4])) = Ok 24
  /\ element_count (mkValueShape 11 (dims_array [2; 3; 4])) = Raise IndexError.
Proof.
  split.
  - apply (proj1 (proj2 (element_count_spec
                           (mkValueShape 3 (dims_array [2; 3; 4]))))).
    vm_compute. split; discriminate.
  - apply (proj2 (proj2 (element_count_spec
                           (mkValueShape 11 (dims_array [2; 3; 4]))))).
    vm_compute. reflexivity.
Defined.

(** ** How [Execute] ends *)

Lemma array_error_None lib mem n :
  array_error lib mem n = None
  <-> 0 <= n /\ n * sizeof_c_float <= PY_SSIZE_T_MAX
      /\ so_allocates lib mem (n * sizeof_c_float) = true.
Proof.
  unfold array_error, PY_SSIZE_T_MAX, sizeof_c_float.
  destruct (Z.ltb_spec n (- 2 ^ 63)); cbn [orb].
  { split; [discriminate|]. intros (? & _). lia. }
  destruct (Z.ltb_spec (2 ^ 63 - 1) n); cbn [orb].
  { split; [discriminate|]. intros (? & ? & _). lia. }
  destruct (Z.ltb_spec n 0).
  { split; [discriminate|]. intros (? & _). lia. }
  destruct (Z.ltb_spec (2 ^ 63 - 1) (n * 4)).
  { split; [discriminate|]. intros (_ & ? & _). lia. }
  destruct (so_allocates lib mem (n * 4)).
  - split; auto.
  - split; [discriminate|]. intros (_ & _ & [=]).
Qed.

Lemma array_error_kinds lib mem n e :
  array_error lib mem n = Some e ->
  e ∈ [ValueError; OverflowError; MemoryError].
Proof.
  unfold array_error.
  destruct (_ || _); [intros [= <-]; set_solver|].
  destruct (n <? 0); [intros [= <-]; set_solver|].
  destruct (PY_SSIZE_T_MAX <? _); [intros [= <-]; set_solver|].
  destruct (so_allocates _ _ _); [discriminate|].
  intros [= <-]. set_solver.
Qed.

Lemma bind_output_result lib cmp c idx w :
  is_Some (contexts (native w) !! c) ->
  match output_error lib (rt_shapes (context_of c w)) (vt_bound w)
          (memory w) idx with
  | Some e => (bind_output lib cmp c idx w).2 = Raise e
  | None =>
      exists w' t,
        bind_output lib cmp c idx w = (w', Ok tt)
        /\ output_bound lib cmp c idx t
             (count lib (rt_shapes (context_of c w)) idx) w w'
  end.
Proof.
  intros Hc. pose proof (bind_output_cases lib cmp c idx w Hc) as H.
  unfold output_error, vt_bound, count.
  destruct (element_count _) as [n|e]; [|exact H].
  destruct (vt w) as [t|]; [|exact H]. simpl.
  destruct (array_error lib (memory w) n); [exact H|].
  destruct H as (w' & E & B). eauto.
Qed.

Lemma bind_outputs_loop_result lib cmp c idxs : forall w,
  is_Some (contexts (native w) !! c) ->
  (for_each idxs (bind_output lib cmp c) w).2
  = match first_error lib (rt_shapes (context_of c w)) (vt_bound w)
            (memory w) idxs with
    | Some e => Raise e
    | None => Ok tt
    end.
Proof.
  induction idxs as [|idx idxs IH]; intros w Hc; [reflexivity|].
  simpl for_each. rewrite bind_unfold. simpl first_error.
  pose proof (bind_output_result lib cmp c idx w Hc) as H.
  destruct (output_error _ _ _ _ idx) as [e|].
  - destruct (bind_output lib cmp c idx w) as [w1 r1]. simpl in H.
    subst r1. reflexivity.
  - destruct H as (w1 & t & E & B). rewrite E. destruct B.
    rewrite IH by assumption. unfold vt_bound.
    rewrite ob_rt_shapes0, ob_vt0, ob_memory0. reflexivity.
Qed.

Lemma last_range (na : Z) :
  last (range na) = if 0 <? na then Some (na - 1) else None.
Proof.
  destruct (0 <? na) eqn:H.
  - apply Z.ltb_lt in H. rewrite last_lookup, length_range.
    rewrite range_lookup by lia. f_equal. lia.
  - apply Z.ltb_ge in H. unfold range.
    replace (Z.to_nat na) with 0%nat by lia. reflexivity.
Qed.

(** The outcome of [Execute] on a loaded model depends on the declared
    counts, the length of [data], the resolved output shapes and the
    allocations only. *)
Lemma Execute_result lib data w cmp na no :
  loaded w cmp na no ->
  (Execute lib data w).2 = Execute_outcome lib na no data (memory w).
Proof.
  intros [Hh Hc Hna Hno]. rewrite (Execute_unfold lib data w cmp Hh Hc).
  cbv zeta. set (c := next_handle (native w)).
  destruct (set_shapes_spec lib cmp (set_vt None w)) as (wA & EA & SA).
  pose proof (stable_set_shapes lib cmp (set_vt None w)) as StA.
  rewrite EA in StA |- *. cbn [fst] in StA |- *.
  destruct SA, StA. simpl in * |-. fold c in ss_context0.
  assert (HcA : is_Some (contexts (native wA) !! c)) by eauto.
  pose proof (bind_inputs_spec lib data cmp c wA na
                ltac:(congruence) HcA) as HI.
  pose proof (frame_bind_inputs lib data cmp c wA) as FC.
  pose proof (keeps_mem_bind_inputs lib data cmp c wA) as MC.
  pose proof (stable_bind_inputs lib data cmp c wA) as StC.
  unfold Execute_outcome. rewrite length_range in HI.
  destruct (bind_inputs lib data cmp c wA) as [wC rC] eqn:EC.
  cbn [fst] in FC, MC, StC. destruct FC, MC, StC.
  case_decide as Hlen.
  - destruct HI as (wC' & [= ? ?] & _ & _ & VC). subst wC' rC.
    replace (Z.of_nat (length data) <? na) with false
      by (symmetry; apply Z.ltb_ge; lia).
    assert (HO : (bind_outputs lib cmp c wC).2
                 = (for_each (range no) (bind_output lib cmp c)
                      (upd_self (set_out_vals []) wC)).2).
    { unfold bind_outputs. rewrite bind_unfold.
      change (modify (upd_self (set_out_vals [])) wC)
        with (upd_self (set_out_vals []) wC, Ok tt).
      cbv beta iota. rewrite bind_unfold. unfold getattr. simpl.
      rewrite stable_nr_outputs1, stable_nr_outputs0, Hno. reflexivity. }
    rewrite bind_outputs_loop_result in HO by (apply frame_live0; exact HcA).
    change (context_of c (upd_self (set_out_vals []) wC))
      with (context_of c wC) in HO.
    change (memory (upd_self (set_out_vals []) wC)) with (memory wC) in HO.
    rewrite frame_rt_shapes0, (context_of_Some _ _ _ ss_context0) in HO.
    rewrite keeps_memory0, ss_memory0 in HO.
    simpl in HO.
    assert (Hvt : vt_bound (upd_self (set_out_vals []) wC) = (0 <? na)).
    { unfold vt_bound. simpl. rewrite VC, ss_vt0, last_range.
      destruct (0 <? na); reflexivity. }
    rewrite Hvt in HO.
    destruct (bind_outputs lib cmp c wC) as [wD rD]. simpl in HO. subst rD.
    destruct (first_error _ _ _ _ _); [reflexivity|reflexivity].
  - destruct HI as (wC' & [= ? ?]). subst wC' rC.
    replace (Z.of_nat (length data) <? na) with true
      by (symmetry; apply Z.ltb_lt; lia).
    reflexivity.
Qed.

Lemma elem_of_range (n idx : Z) : idx ∈ range n <-> 0 <= idx < n.
Proof.
  unfold range. rewrite list_elem_of_fmap. split.
  - intros (i & -> & Hi). apply elem_of_seq in Hi. lia.
  - intros H. exists (Z.to_nat idx). split; [lia|].
    apply elem_of_seq. lia.
Qed.

Lemma take_range (n : Z) (k : nat) :
  (k <= Z.to_nat n)%nat -> take k (range n) = range (Z.of_nat k).
Proof.
  intros H. unfold range. rewrite <- fmap_take, take_seq, Nat2Z.id.
  f_equal. f_equal. lia.
Qed.

Lemma first_error_None lib rt b idxs : forall mem,
  first_error lib rt b mem idxs = None
  <-> forall k idx, idxs !! k = Some idx ->
        output_error lib rt b
          (mem ++ (zero_array <$> (count lib rt <$> take k idxs))) idx
        = None.
Proof.
  induction idxs as [|i idxs IH]; intros mem; simpl.
  - split; [|reflexivity]. intros _ k idx H.
    rewrite lookup_nil in H. discriminate.
  - destruct (output_error lib rt b mem i) eqn:Hi.
    + split; [discriminate|]. intros H.
      specialize (H 0%nat i eq_refl). simpl in H. rewrite app_nil_r in H.
      congruence.
    + rewrite IH. split.
      * intros H [|k] idx Hk; simpl in *.
        -- injection Hk as <-. rewrite app_nil_r. exact Hi.
        -- specialize (H k idx Hk). rewrite <- app_assoc in H. exact H.
      * intros H k idx Hk. specialize (H (S k) idx Hk). simpl in H.
        rewrite <- app_assoc. exact H.
Qed.

Lemma first_error_range_None lib rt b mem no :
  first_error lib rt b mem (range no) = None
  <-> forall idx, 0 <= idx < no ->
        output_error lib rt b (held_before lib rt mem idx) idx = None.
Proof.
  rewrite first_error_None. unfold held_before. split; intros H.
  - intros idx Hidx.
    specialize (H (Z.to_nat idx) idx ltac:(rewrite range_lookup by lia;
                                             f_equal; lia)).
    rewrite take_range, Z2Nat.id in H by lia. exact H.
  - intros k idx Hk. apply lookup_lt_Some in Hk as Hlt.
    rewrite length_range in Hlt. rewrite range_lookup in Hk by lia.
    injection Hk as <-. rewrite take_range by lia. apply H. lia.
Qed.

Lemma output_error_None lib rt b mem idx :
  output_error lib rt b mem idx = None
  <-> b = true
      /\ exists n, element_count (resolved_shape lib rt idx) = Ok n
                   /\ 0 <= n /\ n * sizeof_c_float <= PY_SSIZE_T_MAX
                   /\ so_allocates lib mem (n * sizeof_c_float) = true.
Proof.
  unfold output_error. destruct (element_count _) as [n|e].
  - destruct b; simpl.
    + rewrite array_error_None. split.
      * intros H. split; [reflexivity|]. exists n. auto.
      * intros (_ & m & [= <-] & H). exact H.
    + split; [discriminate|]. intros [[=] _].
  - split; [discriminate|]. intros (_ & n & [=] & _).
Qed.

(** [Execute] on a loaded model returns normally exactly when [data] has an
    entry for every declared argument and, for every declared output, at
    least one argument is declared, the resolved shape has an element count
    (its [size] is within the [dims] array), that count is neither negative
    nor too large for an array of [c_float], and the array can be allocated
    beside the arrays already held and those of the outputs before it. *)
Theorem Execute_returns_iff lib data w cmp na no :
  loaded w cmp na no ->
  (Execute lib data w).2 = Ok self_buffers
  <-> na <= Z.of_nat (length data)
      /\ forall idx, 0 <= idx < no ->
           0 < na
           /\ exists n,
                element_count
                  (resolved_shape lib [(so_arg lib 0, input0_real_shape)] idx)
                = Ok n
                /\ 0 <= n /\ n * 4 <= 2 ^ 63 - 1
                /\ so_allocates lib
                     (held_before lib [(so_arg lib 0, input0_real_shape)]
                        (memory w) idx)
                     (n * 4)
                   = true.
Proof.
  intros L. rewrite (Execute_result lib data w cmp na no L).
  unfold Execute_outcome.
  destruct (Z.of_nat (length data) <? na) eqn:Hlen.
  - apply Z.ltb_lt in Hlen. split; [discriminate|]. intros [? _]. lia.
  - apply Z.ltb_ge in Hlen.
    destruct (first_error _ _ _ _ _) as [e|] eqn:Hfe.
    + split; [discriminate|]. intros [_ H]. exfalso.
      assert (Hnone : first_error lib
                        [(so_arg lib input0_idx, input0_real_shape)]
                        (0 <? na) (memory w) (range no) = None).
      { apply first_error_range_None. intros idx Hidx.
        apply output_error_None. destruct (H idx Hidx) as [Hna Hn].
        split; [apply Z.ltb_lt; exact Hna|exact Hn]. }
      congruence.
    + split; [|reflexivity]. intros _. split; [lia|].
      intros idx Hidx.
      rewrite first_error_range_None in Hfe. specialize (Hfe idx Hidx).
      apply output_error_None in Hfe as [Hna Hn].
      split; [apply Z.ltb_lt; exact Hna|exact Hn].
Qed.

Lemma Execute_returns_iff_witness :
  loaded detector_loaded 1 1 1
  /\ (Execute detector [[x05]] detector_loaded).2 = Ok self_buffers
  /\ 1 <= Z.of_nat (length [[x05]]).
Proof.
  assert (L : loaded detector_loaded 1 1 1) by (split; vm_compute; reflexivity).
  split; [exact L|].
  assert (E : (Execute detector [[x05]] detector_loaded).2 = Ok self_buffers)
    by (vm_compute; reflexivity).
  split; [exact E|].
  exact (proj1 (proj1 (Execute_returns_iff detector [[x05]] detector_loaded
                         1 1 1 L) E)).
Defined.

Lemma first_error_at lib rt b idxs : forall mem k idx e,
  idxs !! k = Some idx ->
  (forall j i, (j < k)%nat -> idxs !! j = Some i ->
     output_error lib rt b
       (mem ++ (zero_array <$> (count lib rt <$> take j idxs))) i = None) ->
  output_error lib rt b
    (mem ++ (zero_array <$> (count lib rt <$> take k idxs))) idx = Some e ->
  first_error lib rt b mem idxs = Some e.
Proof.
  induction idxs as [|i idxs IH]; intros mem k idx e Hk Hbefore He;
    [discriminate|].
  destruct k as [|k]; simpl in *.
  - injection Hk as ->. rewrite app_nil_r in He. rewrite He. reflexivity.
  - pose proof (Hbefore 0%nat i ltac:(lia) eq_refl) as H0. simpl in H0.
    rewrite app_nil_r in H0. rewrite H0.
    apply (IH _ k idx e Hk).
    + intros j i' Hj Hi'. rewrite <- app_assoc.
      apply (Hbefore (S j) i'); [lia|exact Hi'].
    + rewrite <- app_assoc. exact He.
Qed.

Lemma first_error_range_at lib rt b mem no idx e :
  0 <= idx < no ->
  (forall i, 0 <= i < idx ->
     output_error lib rt b (held_before lib rt mem i) i = None) ->
  output_error lib rt b (held_before lib rt mem idx) idx = Some e ->
  first_error lib rt b mem (range no) = Some e.
Proof.
  intros Hidx Hbefore He.
  apply (first_error_at lib rt b (range no) mem (Z.to_nat idx) idx e).
  - rewrite range_lookup by lia. f_equal. lia.
  - intros j i Hj Hi. rewrite range_lookup in Hi by lia.
    injection Hi as <-. rewrite take_range by lia. apply Hbefore. lia.
  - rewrite take_range, Z2Nat.id by lia. exact He.
Qed.

(** The first declared output that cannot be bound decides how [Execute]
    fails: if [data] is long enough, the outputs before [idx] can all be
    bound and the loop body raises [e] for output [idx], then [Execute]
    raises [e]; no [odla_ExecuteComputation] call was issued and no array
    was written. *)
Theorem Execute_first_bad_output lib data w cmp na no idx e :
  loaded w cmp na no ->
  na <= Z.of_nat (length data) ->
  0 <= idx < no ->
  (forall i, 0 <= i < idx ->
     output_error lib [(so_arg lib 0, input0_real_shape)] (0 <? na)
       (held_before lib [(so_arg lib 0, input0_real_shape)] (memory w) i) i
     = None) ->
  output_error lib [(so_arg lib 0, input0_real_shape)] (0 <? na)
    (held_before lib [(so_arg lib 0, input0_real_shape)] (memory w) idx) idx
  = Some e ->
  (Execute lib data w).2 = Raise e
  /\ quiet w (Execute lib data w).1.
Proof.
  intros L Hlen Hidx Hbefore He.
  assert (HR : (Execute lib data w).2 = Raise e).
  { rewrite (Execute_result lib data w cmp na no L). unfold Execute_outcome.
    replace (Z.of_nat (length data) <? na) with false
      by (symmetry; apply Z.ltb_ge; lia).
    unfold input0_idx.
    rewrite (first_error_range_at lib _ _ (memory w) no idx e Hidx Hbefore He).
    reflexivity. }
  split; [exact HR|].
  destruct (Execute lib data w) as [w' r] eqn:E. simpl in HR. subst r.
  apply Execute_raise in E. apply E.
Qed.

Lemma Execute_first_bad_output_witness :
  loaded (Load unresolved_net __init__).1 1 1 1
  /\ 1 <= Z.of_nat (length [[x05]])
  /\ (Execute unresolved_net [[x05]] (Load unresolved_net __init__).1).2
     = Raise ValueError.
Proof.
  assert (L : loaded (Load unresolved_net __init__).1 1 1 1)
    by (split; vm_compute; reflexivity).
  split; [exact L|]. split; [vm_compute; discriminate|].
  refine (proj1 (Execute_first_bad_output unresolved_net [[x05]] _ 1 1 1 0
                   ValueError L _ _ _ _)).
  - vm_compute. discriminate.
  - lia.
  - intros i Hi. lia.
  - vm_compute. reflexivity.
Defined.

Lemma output_error_kinds lib rt b mem idx e :
  output_error lib rt b mem idx = Some e ->
  e ∈ [IndexError; UnboundLocalError; ValueError; OverflowError; MemoryError].
Proof.
  unfold output_error. destruct (element_count _) as [n|e'] eqn:He.
  - destruct b; simpl.
    + intros H%array_error_kinds. revert H. rewrite !elem_of_cons. tauto.
    + intros [= <-]. set_solver.
  - intros [= <-]. apply mul_dims_raises in He as ->. set_solver.
Qed.

Lemma first_error_kinds lib rt b idxs e : forall mem,
  first_error lib rt b mem idxs = Some e ->
  e ∈ [IndexError; UnboundLocalError; ValueError; OverflowError; MemoryError].
Proof.
  induction idxs as [|i idxs IH]; intros mem; simpl; [discriminate|].
  destruct (output_error lib rt b mem i) as [e'|] eqn:Hi; [|apply IH].
  intros [= <-]. exact (output_error_kinds _ _ _ _ _ _ Hi).
Qed.

(** On a loaded model [Execute] either returns [self.buffers] or raises
    one of [IndexError], [UnboundLocalError], [ValueError], [OverflowError]
    and [MemoryError]; in particular it never raises [AttributeError]. *)
Theorem Execute_failure_kinds lib data w cmp na no :
  loaded w cmp na no ->
  (Execute lib data w).2 = Ok self_buffers
  \/ exists e, (Execute lib data w).2 = Raise e
               /\ e ∈ [IndexError; UnboundLocalError; ValueError;
                        OverflowError; MemoryError].
Proof.
  intros L. rewrite (Execute_result lib data w cmp na no L).
  unfold Execute_outcome.
  destruct (Z.of_nat (length data) <? na).
  - right. exists IndexError. split; [reflexivity|set_solver].
  - destruct (first_error _ _ _ _ _) as [e|] eqn:He; [|left; reflexivity].
    right. exists e. split; [reflexivity|].
    exact (first_error_kinds _ _ _ _ _ _ He).
Qed.

Lemma Execute_failure_kinds_witness :
  loaded detector_loaded 1 1 1
  /\ (Execute detector [] detector_loaded).2 <> Raise AttributeError.
Proof.
  assert (L : loaded detector_loaded 1 1 1) by (split; vm_compute; reflexivity).
  split; [exact L|].
  destruct (Execute_failure_kinds detector [] detector_loaded 1 1 1 L)
    as [H|(e & H & He)]; rewrite H; [discriminate|].
  intros [= ->]. set_solver.
Defined.

(** A model that declares no argument but at least one output: if the
    first output has an element count, [Execute] raises
    [UnboundLocalError] at line 179, where the local [vt] of the argument
    loop is read without ever having been assigned. *)
Theorem Execute_no_arguments lib data w cmp na no :
  loaded w cmp na no ->
  na <= 0 ->
  0 < no ->
  (Z.to_nat
     (size (resolved_shape lib [(so_arg lib 0, input0_real_shape)] 0))
   <= length
        (dims (resolved_shape lib [(so_arg lib 0, input0_real_shape)] 0)))%nat
  ->
  (Execute lib data w).2 = Raise UnboundLocalError.
Proof.
  intros L Hna Hno Hrank.
  rewrite (Execute_result lib data w cmp na no L). unfold Execute_outcome.
  replace (Z.of_nat (length data) <? na) with false
    by (symmetry; apply Z.ltb_ge; lia).
  replace (0 <? na) with false by (symmetry; apply Z.ltb_ge; lia).
  rewrite (first_error_range_at lib _ false (memory w) no 0 UnboundLocalError).
  - reflexivity.
  - lia.
  - intros i Hi. lia.
  - unfold output_error. rewrite element_count_eq.
    unfold input0_idx. case_decide; [reflexivity|contradiction].
Qed.

Lemma Execute_no_arguments_witness :
  loaded (Load constant_net __init__).1 1 0 1
  /\ (Execute constant_net [] (Load constant_net __init__).1).2
     = Raise UnboundLocalError.
Proof.
  assert (L : loaded (Load constant_net __init__).1 1 0 1)
    by (split; vm_compute; reflexivity).
  split; [exact L|].
  apply (Execute_no_arguments constant_net [] _ 1 0 1 L); [lia|lia|].
  vm_compute. lia.
Defined.

(** ** The run is the last native call *)

Lemma ExecuteComputation_calls lib cmp c w :
  calls (native (odla_ExecuteComputation lib cmp c w).1)
  = calls (native w) ++ [ExecuteComputation cmp c].
Proof. reflexivity. Qed.

Lemma quiet_calls w w' :
  quiet w w' ->
  exists l, calls (native w') = calls (native w) ++ l
            /\ forallb not_execute l = true.
Proof. intros [H _]. exact H. Qed.

(** During one [Execute] on a loaded model, [odla_ExecuteComputation] is
    called at most once: as the very last native call, on the computation
    of the model and the context created by this call, exactly when
    [Execute] returns normally. *)
Theorem Execute_runs_last lib data w cmp na no :
  loaded w cmp na no ->
  exists l,
    forallb not_execute l = true
    /\ calls (native (Execute lib data w).1)
       = calls (native w) ++ l
         ++ match (Execute lib data w).2 with
            | Ok _ => [ExecuteComputation cmp (next_handle (native w))]
            | Raise _ => []
            end.
Proof.
  intros [Hh Hc _ _].
  destruct (Execute lib data w) as [w' [r|e]] eqn:E.
  - rewrite (Execute_unfold lib data w cmp Hh Hc) in E. cbv zeta in E.
    pose proof (quiet_set_shapes lib cmp (set_vt None w)) as QA.
    set (wA := (set_shapes lib cmp (set_vt None w)).1) in *.
    pose proof (quiet_bind_inputs lib data cmp (next_handle (native w)) wA)
      as QC.
    destruct (bind_inputs _ _ _ _ wA) as [wC [[]|?]]; [|discriminate].
    pose proof (quiet_bind_outputs lib cmp (next_handle (native w)) wC)
      as QD.
    destruct (bind_outputs _ _ _ wC) as [wD [[]|?]]; [|discriminate].
    injection E as <- _. cbn [fst snd] in *.
    assert (Q : quiet w wD).
    { etransitivity; [|exact QD]. etransitivity; [|exact QC].
      etransitivity; [|exact QA].
      split; exists []; rewrite app_nil_r; auto. }
    apply quiet_calls in Q as (l & Hl & Hq). exists l.
    split; [exact Hq|].
    simpl. rewrite Hl, <- app_assoc. reflexivity.
  - apply Execute_raise in E as [Q _].
    apply quiet_calls in Q as (l & Hl & Hq). exists l.
    split; [exact Hq|]. simpl. rewrite app_nil_r. exact Hl.
Qed.

Lemma Execute_runs_last_witness :
  loaded detector_loaded 1 1 1
  /\ last (calls (native (Execute detector [[x05]] detector_loaded).1))
     = Some (ExecuteComputation 1 2).
Proof.
  assert (L : loaded detector_loaded 1 1 1) by (split; vm_compute; reflexivity).
  split; [exact L|].
  destruct (Execute_runs_last detector [[x05]] detector_loaded 1 1 1 L)
    as (l & _ & H).
  rewrite H. vm_compute next_handle.
  replace (Execute detector [[x05]] detector_loaded).2
    with (@Ok pyref self_buffers) by (vm_compute; reflexivity).
  rewrite app_assoc. apply last_snoc.
Defined.

(** ** Arrays of earlier calls *)

Lemma bind_inputs_unloaded lib data cmp c w :
  nr_args (self w) = None ->
  (bind_inputs lib data cmp c w).2 = Raise AttributeError.
Proof.
  intros H. unfold bind_inputs. rewrite bind_unfold.
  set (w0 := upd_self (set_in_vals []) w).
  change (modify (upd_self (set_in_vals [])) w) with (w0, Ok tt).
  cbv beta iota. rewrite bind_unfold.
  replace (getattr nr_args w0) with (w0, @Raise Z AttributeError)
    by (unfold getattr; simpl; rewrite H; reflexivity).
  reflexivity.
Qed.

Lemma bind_outputs_unloaded lib cmp c w :
  nr_outputs (self w) = None ->
  (bind_outputs lib cmp c w).2 = Raise AttributeError.
Proof.
  intros H. unfold bind_outputs. rewrite bind_unfold.
  set (w0 := upd_self (set_out_vals []) w).
  change (modify (upd_self (set_out_vals [])) w) with (w0, Ok tt).
  cbv beta iota. rewrite bind_unfold.
  replace (getattr nr_outputs w0) with (w0, @Raise Z AttributeError)
    by (unfold getattr; simpl; rewrite H; reflexivity).
  reflexivity.
Qed.

(** [Execute] on an object whose library or computation is missing. *)
Lemma Execute_unloaded lib data w :
  h (self w) = false \/ comp (self w) = None ->
  Execute lib data w = (set_vt None w, Raise AttributeError).
Proof.
  intros H. unfold Execute. rewrite bind_unfold.
  change (modify (set_vt None) w) with (set_vt None w, Ok tt).
  cbv beta iota. rewrite bind_unfold.
  destruct (h (self w)) eqn:Hh.
  - destruct H as [H|H]; [discriminate|].
    replace (getattr_h (set_vt None w)) with (set_vt None w, Ok tt)
      by (unfold getattr_h; simpl; rewrite Hh; reflexivity).
    cbv beta iota. rewrite bind_unfold.
    replace (getattr comp (set_vt None w))
      with (set_vt None w, @Raise Z AttributeError)
      by (unfold getattr; simpl; rewrite H; reflexivity).
    reflexivity.
  - replace (getattr_h (set_vt None w))
      with (set_vt None w, @Raise unit AttributeError)
      by (unfold getattr_h; simpl; rewrite Hh; reflexivity).
    reflexivity.
Qed.

(** A normal return of [Execute] shows that the model was loaded. *)
Lemma Execute_ok_loaded lib data w w' r :
  Execute lib data w = (w', Ok r) ->
  exists cmp na no, loaded w cmp na no.
Proof.
  intros E.
  destruct (h (self w)) eqn:Hh;
    [|rewrite Execute_unloaded in E by auto; discriminate].
  destruct (comp (self w)) as [cmp|] eqn:Hc;
    [|rewrite Execute_unloaded in E by auto; discriminate].
  exists cmp.
  rewrite (Execute_unfold lib data w cmp Hh Hc) in E. cbv zeta in E.
  pose proof (stable_set_shapes lib cmp (set_vt None w)) as StA.
  remember (set_shapes lib cmp (set_vt None w)).1 as wA eqn:HwA.
  clear HwA.
  pose proof (stable_bind_inputs lib data cmp (next_handle (native w)) wA)
    as StC.
  pose proof (bind_inputs_unloaded lib data cmp (next_handle (native w)) wA)
    as UC.
  destruct (bind_inputs _ _ _ _ wA) as [wC [[]|?]]; [|discriminate].
  pose proof (bind_outputs_unloaded lib cmp (next_handle (native w)) wC)
    as UD.
  destruct (bind_outputs _ _ _ wC) as [wD [[]|?]]; [|discriminate].
  destruct StA as [_ _ HA1 HA2]. destruct StC as [_ _ HC1 HC2].
  cbn [fst snd] in *. simpl in HA1, HA2.
  destruct (nr_args (self w)) as [na|] eqn:Hna;
    [|rewrite HA1 in UC; specialize (UC eq_refl); discriminate].
  destruct (nr_outputs (self w)) as [no|] eqn:Hno;
    [|rewrite HC2, HA2 in UD; specialize (UD eq_refl); discriminate].
  exists na, no. split; auto.
Qed.

(** [Execute] never touches an array that existed before the call: the
    output arrays of earlier calls keep their contents, however this call
    ends. *)
Theorem Execute_keeps_arrays lib data w (b : nat) (d : buffer) :
  memory w !! b = Some d ->
  memory (Execute lib data w).1 !! b = Some d.
Proof.
  intros Hb. destruct (Execute lib data w) as [w' [r|e]] eqn:E.
  - destruct (Execute_ok_loaded _ _ _ _ _ E) as (cmp & na & no & L).
    apply (Execute_ok _ _ _ _ _ _ _ _ L) in E. destruct E.
    simpl. rewrite ex_memory0. apply lookup_app_l_Some. exact Hb.
  - apply Execute_raise in E as [[_ (zs & Hm & _)] _].
    simpl. rewrite Hm. apply lookup_app_l_Some. exact Hb.
Qed.

Lemma Execute_keeps_arrays_witness :
  memory (Execute detector [[x05]]
            (Execute detector [[x05]] detector_loaded).1).1 !! 0%nat
  = Some (repeat x01 8).
Proof.
  apply (Execute_keeps_arrays detector [[x05]]
           (Execute detector [[x05]] detector_loaded).1 0 (repeat x01 8)).
  vm_compute. reflexivity.
Defined.

(** ** [Load] and [__del__] *)

Lemma Load_spec lib w :
  exists w', Load lib w = (w', Ok tt)
    /\ loaded w' (next_handle (native w)) (so_nr_args lib) (so_nr_outputs lib)
    /\ calls (native w')
       = calls (native w)
         ++ [ CreateComputation (next_handle (native w));
              ModelHelper (next_handle (native w));
              GetNumOfArgsFromComputation (next_handle (native w));
              GetNumOfOutputsFromComputation (next_handle (native w)) ]
    /\ next_handle (native w') = next_handle (native w) + 1
    /\ ctx (self w') = ctx (self w)
    /\ buffers (self w') = buffers (self w)
    /\ memory w' = memory w.
Proof.
  eexists. split; [reflexivity|]. split; [split; reflexivity|].
  simpl. rewrite <- !app_assoc. repeat split.
Qed.

Lemma del_loaded w c cmp :
  h (self w) = true ->
  ctx (self w) = Some c -> c <> 0 ->
  comp (self w) = Some cmp -> cmp <> 0 ->
  exists w', __del__ w = (w', Ok tt)
    /\ calls (native w')
       = calls (native w) ++ [DestroyContext c; DestroyComputation cmp]
    /\ self w' = self w
    /\ memory w' = memory w.
Proof.
  intros Hh Hctx Hc Hcomp Hcmp. unfold __del__.
  rewrite bind_unfold. change (get w) with (w, Ok w). cbv beta iota.
  rewrite Hh, bind_unfold. unfold getattr at 1. rewrite Hctx.
  cbv beta iota. rewrite bind_unfold.
  rewrite (bool_decide_eq_true_2 _ Hc).
  set (w1 := (odla_DestroyContext c w).1).
  change (odla_DestroyContext c w) with (w1, Ok tt). cbv beta iota.
  rewrite bind_unfold. unfold getattr.
  change (comp (self w1)) with (comp (self w)). rewrite Hcomp.
  cbv beta iota. rewrite (bool_decide_eq_true_2 _ Hcmp).
  eexists. split; [reflexivity|]. simpl.
  split; [|split; reflexivity].
  symmetry. apply (app_assoc (calls (native w)) [_] [_]).
Qed.

(** [__del__] destroys no computation but the one in [self.comp]. *)
Lemma del_destroyed_computations w x :
  x ∈ destroyed_computations (calls (native (__del__ w).1)) ->
  x ∈ destroyed_computations (calls (native w)) \/ comp (self w) = Some x.
Proof.
  unfold __del__. rewrite bind_unfold. change (get w) with (w, Ok w).
  cbv beta iota. destruct (h (self w)); [|auto].
  rewrite bind_unfold. unfold getattr at 1.
  destruct (ctx (self w)) as [c|]; [|auto]. cbv beta iota.
  rewrite bind_unfold.
  assert (H : exists w1, ((if bool_decide (c <> 0)
                           then odla_DestroyContext c else mret tt) w)
                         = (w1, Ok tt)
              /\ comp (self w1) = comp (self w)
              /\ destroyed_computations (calls (native w1))
                 = destroyed_computations (calls (native w))).
  { destruct (bool_decide (c <> 0)); eexists; (split; [reflexivity|]).
    - split; [reflexivity|]. unfold destroyed_computations. simpl.
      rewrite omap_app. simpl. apply app_nil_r.
    - split; reflexivity. }
  destruct H as (w1 & E1 & C1 & D1). rewrite E1. cbv beta iota.
  rewrite bind_unfold. unfold getattr. rewrite C1.
  destruct (comp (self w)) as [cmp|]; simpl; [|rewrite D1; auto].
  destruct (bool_decide (cmp <> 0)); simpl; [|rewrite D1; auto].
  unfold destroyed_computations in *. rewrite omap_app, D1. simpl.
  intros [H|H%list_elem_of_singleton]%elem_of_app; [auto|].
  right. congruence.
Qed.

#[global] Instance grows_preorder : PreOrder grows.
Proof.
  unfold grows. split.
  - intros w. reflexivity.
  - intros w1 w2 w3 H1 H2. etransitivity; eassumption.
Qed.

Ltac solve_grows :=
  unfold grows; first [ reflexivity | simpl; apply prefix_app_r; reflexivity ].

Lemma grows_del : preserves grows __del__.
Proof.
  unfold __del__, odla_DestroyContext, odla_DestroyComputation, call.
  rules grows; solve_grows.
Qed.

Lemma grows_created_computations w w' x :
  grows w w' ->
  x ∈ created_computations (calls (native w)) ->
  x ∈ created_computations (calls (native w')).
Proof.
  intros [l Hl] Hx. unfold created_computations in *.
  rewrite Hl, omap_app. apply elem_of_app. auto.
Qed.

(** [Load] called twice: the second call overwrites [self.comp], so the
    computation created by the first call is never destroyed, whatever
    [__del__] does afterwards. *)
Theorem Load_twice_leaks_computation lib w :
  next_handle (native w) ∉ destroyed_computations (calls (native w)) ->
  let w1 := (Load lib w).1 in
  let w2 := (Load lib w1).1 in
  let w3 := (__del__ w2).1 in
  comp (self w1) = Some (next_handle (native w))
  /\ comp (self w2) = Some (next_handle (native w) + 1)
  /\ next_handle (native w) ∈ created_computations (calls (native w3))
  /\ next_handle (native w) ∉ destroyed_computations (calls (native w3)).
Proof.
  intros Hfresh w1 w2 w3.
  destruct (Load_spec lib w) as (x1 & E1 & [_ C1 _ _] & L1 & N1 & _).
  assert (x1 = w1) as -> by (unfold w1; rewrite E1; reflexivity).
  destruct (Load_spec lib w1) as (x2 & E2 & [_ C2 _ _] & L2 & N2 & _).
  assert (x2 = w2) as -> by (unfold w2; rewrite E2; reflexivity).
  rewrite N1 in C2.
  split; [exact C1|]. split; [exact C2|]. split.
  - apply (grows_created_computations w2 w3); [apply grows_del|].
    unfold created_computations. rewrite L2, L1, !omap_app. simpl.
    set_solver.
  - intros H. apply del_destroyed_computations in H as [H|H].
    + unfold destroyed_computations in H.
      rewrite L2, L1, !omap_app in H. simpl in H.
      rewrite !app_nil_r in H. exact (Hfresh H).
    + rewrite C2 in H. injection H as H. lia.
Qed.

Lemma Load_twice_leaks_computation_witness :
  (1 ∉ destroyed_computations (calls (native __init__)))
  /\ (1 ∈ created_computations
           (calls (native
                     (__del__ (Load detector (Load detector __init__).1).1).1)))
  /\ (1 ∉ destroyed_computations
           (calls (native
                     (__del__ (Load detector (Load detector __init__).1).1).1))).
Proof.
  assert (F : 1 ∉ destroyed_computations (calls (native __init__)))
    by (vm_compute; set_solver).
  split; [exact F|].
  exact (proj2 (proj2 (Load_twice_leaks_computation detector __init__ F))).
Defined.

(** [__del__] leaves the handles on the object: called a second time, it
    destroys the same context and the same computation again. *)
Theorem del_twice_destroys_twice w c cmp :
  h (self w) = true ->
  ctx (self w) = Some c -> c <> 0 ->
  comp (self w) = Some cmp -> cmp <> 0 ->
  let w1 := (__del__ w).1 in
  let w2 := (__del__ w1).1 in
  (__del__ w).2 = Ok tt
  /\ (__del__ w1).2 = Ok tt
  /\ calls (native w2)
     = calls (native w)
       ++ [ DestroyContext c; DestroyComputation cmp;
            DestroyContext c; DestroyComputation cmp ].
Proof.
  intros Hh Hctx Hc Hcomp Hcmp w1 w2.
  destruct (del_loaded w c cmp Hh Hctx Hc Hcomp Hcmp)
    as (x1 & E1 & L1 & S1 & _).
  assert (x1 = w1) as -> by (unfold w1; rewrite E1; reflexivity).
  rewrite <- S1 in Hh, Hctx, Hcomp.
  destruct (del_loaded w1 c cmp Hh Hctx Hc Hcomp Hcmp)
    as (x2 & E2 & L2 & _).
  assert (x2 = w2) as -> by (unfold w2; rewrite E2; reflexivity).
  rewrite E1, E2, L2, L1, <- app_assoc. repeat split.
Qed.

Lemma del_twice_destroys_twice_witness :
  occurrences 2
    (destroyed_contexts
       (calls (native
                 (__del__
                    (__del__
                       (Execute detector [[x05]] detector_loaded).1).1).1)))
  = 2%nat.
Proof.
  assert (H := proj2 (proj2 (del_twice_destroys_twice
              (Execute detector [[x05]] detector_loaded).1 2 1
              ltac:(vm_compute; reflexivity) ltac:(vm_compute; reflexivity)
              ltac:(discriminate) ltac:(vm_compute; reflexivity)
              ltac:(discriminate)))).
  cbv zeta in H. rewrite H. vm_compute. reflexivity.
Defined.

(** ** [Execute] followed by [__del__] *)

Lemma Execute_next_handle lib data w cmp :
  h (self w) = true ->
  comp (self w) = Some cmp ->
  next_handle (native (Execute lib data w).1) = next_handle (native w) + 1.
Proof.
  intros Hh Hc.
  destruct (Execute_frame lib data w cmp Hh Hc) as (wA & SA & FA & _).
  destruct FA as [_ _ _ _ Hn _ _]. rewrite Hn.
  destruct SA as [_ _ _ _ _ _ Hs _ _ _]. exact Hs.
Qed.

(** One [Execute] on a loaded model and then [__del__]: however [Execute]
    ended, [__del__] returns normally and destroys the context this call
    created and then the computation, each once. *)
Theorem Execute_then_del_releases lib data w cmp na no :
  loaded w cmp na no ->
  cmp <> 0 ->
  0 < next_handle (native w) ->
  let w1 := (Execute lib data w).1 in
  (__del__ w1).2 = Ok tt
  /\ calls (native (__del__ w1).1)
     = calls (native w1)
       ++ [DestroyContext (next_handle (native w)); DestroyComputation cmp]
  /\ created_contexts (calls (native w1))
     = created_contexts (calls (native w)) ++ [next_handle (native w)].
Proof.
  intros [Hh Hc _ _] Hcmp Hpos w1.
  destruct (Execute_creates_one_context lib data w cmp Hh Hc)
    as (C1 & _ & X1 & [Hh1 Hc1 _ _]).
  fold w1 in C1, X1, Hh1, Hc1. rewrite Hh in Hh1. rewrite Hc in Hc1.
  destruct (del_loaded w1 (next_handle (native w)) cmp Hh1 X1 ltac:(lia)
              Hc1 Hcmp) as (w2 & E & L & _).
  rewrite E. simpl. auto.
Qed.

Lemma Execute_then_del_releases_witness :
  loaded detector_loaded 1 1 1
  /\ (__del__ (Execute detector [] detector_loaded).1).2 = Ok tt
  /\ (Execute detector [] detector_loaded).2 = Raise IndexError.
Proof.
  assert (L : loaded detector_loaded 1 1 1) by (split; vm_compute; reflexivity).
  split; [exact L|]. split; [|vm_compute; reflexivity].
  exact (proj1 (Execute_then_del_releases detector [] detector_loaded 1 1 1 L
                  ltac:(discriminate) ltac:(vm_compute; reflexivity))).
Defined.

(** ** Repeated calls *)

Lemma executes_spec lib data cmp na no (k : nat) : forall w w',
  loaded w cmp na no ->
  executes lib data k w = (w', Ok tt) ->
  loaded w' cmp na no
  /\ buffers (self w')
     = buffers (self w) ++ seq (length (memory w)) (k * Z.to_nat no)
  /\ length (memory w') = (length (memory w) + k * Z.to_nat no)%nat
  /\ created_contexts (calls (native w'))
     = created_contexts (calls (native w))
       ++ ((fun i => next_handle (native w) + Z.of_nat i) <$> seq 0 k)
  /\ destroyed_contexts (calls (native w'))
     = destroyed_contexts (calls (native w))
  /\ next_handle (native w') = next_handle (native w) + Z.of_nat k
  /\ ctx (self w')
     = match k with
       | O => ctx (self w)
       | S j => Some (next_handle (native w) + Z.of_nat j)
       end.
Proof.
  induction k as [|k IH]; intros w w' L.
  - simpl. intros [= <-]. rewrite !app_nil_r, Nat.add_0_r, Z.add_0_r.
    repeat split; auto; apply L.
  - simpl executes. rewrite bind_unfold.
    destruct (Execute lib data w) as [w1 [r1|e]] eqn:E1; [|discriminate].
    intros Hrest. pose proof L as [Hh Hc _ _].
    pose proof (Execute_creates_one_context lib data w cmp Hh Hc)
      as (C1 & D1 & X1 & S1).
    pose proof (Execute_next_handle lib data w cmp Hh Hc) as N1.
    rewrite E1 in C1, D1, X1, S1, N1. cbn [fst] in C1, D1, X1, S1, N1.
    pose proof (loaded_stable w w1 cmp na no S1 L) as L1.
    apply (Execute_ok lib data w w1 r1 cmp na no L) in E1.
    destruct E1.
    assert (M1 : length (memory w1)
                 = (length (memory w) + Z.to_nat no)%nat).
    { rewrite ex_memory0, length_app, length_zip_with, !length_fmap,
        length_range. lia. }
    destruct (IH w1 w' L1 Hrest) as (L' & B & M & C & D & N & X).
    split; [exact L'|]. split; [|split; [|split; [|split; [|split]]]].
    + rewrite B, ex_buffers0, M1, length_range, <- app_assoc.
      f_equal. replace (S k * Z.to_nat no)%nat
        with (Z.to_nat no + k * Z.to_nat no)%nat by lia.
      rewrite seq_app. reflexivity.
    + rewrite M, M1. lia.
    + rewrite C, C1, N1, <- app_assoc. f_equal. simpl. f_equal.
      * f_equal. lia.
      * rewrite <- fmap_S_seq, <- list_fmap_compose.
        apply list_fmap_ext. intros i x _. simpl. lia.
    + rewrite D, D1. reflexivity.
    + rewrite N, N1. lia.
    + rewrite X, N1. destruct k as [|j]; [rewrite X1; f_equal; lia|].
      f_equal. lia.
Qed.

(** After [k] calls of [Execute] that all returned normally, [self.buffers]
    (the list every one of these calls returned) holds the arrays of all
    [k] calls, [k * nr_outputs] in allocation order: the class never drops
    an output array. *)
Theorem executes_accumulate_buffers lib data cmp na no (k : nat) w w' :
  loaded w cmp na no ->
  executes lib data k w = (w', Ok tt) ->
  buffers (self w')
  = buffers (self w) ++ seq (length (memory w)) (k * Z.to_nat no)
  /\ length (buffers (self w'))
     = (length (buffers (self w)) + k * Z.to_nat no)%nat.
Proof.
  intros L E.
  destruct (executes_spec lib data cmp na no k w w' L E) as (_ & B & _).
  split; [exact B|]. rewrite B, length_app, length_seq. reflexivity.
Qed.

Lemma executes_accumulate_buffers_witness :
  loaded detector_loaded 1 1 1
  /\ length (buffers (self (executes detector [[x05]] 3 detector_loaded).1))
     = 3%nat.
Proof.
  assert (L : loaded detector_loaded 1 1 1) by (split; vm_compute; reflexivity).
  split; [exact L|].
  destruct (executes detector [[x05]] 3 detector_loaded) as [w' r] eqn:E.
  assert (r = Ok tt) as ->
    by (apply (f_equal snd) in E; vm_compute in E; congruence).
  cbn [fst].
  rewrite (proj2 (executes_accumulate_buffers detector [[x05]] 1 1 1 3
                    detector_loaded w' L E)).
  vm_compute. reflexivity.
Defined.

(** After [k + 1] calls of [Execute] that all returned normally, [__del__]
    destroys the context of the last call only: the [k] contexts created by
    the earlier calls are never destroyed. *)
Theorem executes_then_del_contexts lib data cmp na no (k : nat) w w' :
  loaded w cmp na no ->
  cmp <> 0 ->
  0 < next_handle (native w) ->
  executes lib data (S k) w = (w', Ok tt) ->
  let w'' := (__del__ w').1 in
  created_contexts (calls (native w''))
  = created_contexts (calls (native w))
    ++ ((fun i => next_handle (native w) + Z.of_nat i) <$> seq 0 (S k))
  /\ destroyed_contexts (calls (native w''))
     = destroyed_contexts (calls (native w))
       ++ [next_handle (native w) + Z.of_nat k].
Proof.
  intros L Hcmp Hpos E w''.
  destruct (executes_spec lib data cmp na no (S k) w w' L E)
    as ([Hh Hc _ _] & _ & _ & C & D & _ & X).
  destruct (del_loaded w' _ cmp Hh X ltac:(lia) Hc Hcmp)
    as (x & Ex & Lx & _).
  assert (x = w'') as -> by (unfold w''; rewrite Ex; reflexivity).
  unfold created_contexts, destroyed_contexts in *.
  rewrite Lx, !omap_app, C, D. simpl. rewrite app_nil_r. auto.
Qed.

Lemma executes_then_del_contexts_witness :
  loaded detector_loaded 1 1 1
  /\ destroyed_contexts
       (calls (native
                 (__del__ (executes detector [[x05]] 3 detector_loaded).1).1))
     = [4].
Proof.
  assert (L : loaded detector_loaded 1 1 1) by (split; vm_compute; reflexivity).
  split; [exact L|].
  destruct (executes detector [[x05]] 3 detector_loaded) as [w' r] eqn:E.
  assert (r = Ok tt) as ->
    by (apply (f_equal snd) in E; vm_compute in E; congruence).
  cbn [fst].
  rewrite (proj2 (executes_then_del_contexts detector [[x05]] 1 1 1 2
                    detector_loaded w' L ltac:(discriminate)
                    ltac:(vm_compute; reflexivity) E)).
  vm_compute. reflexivity.
Defined.

(** ** The records of [self.out_vals] *)

Lemma Execute_no_outputs lib data w w' r cmp na no :
  loaded w cmp na no ->
  range no = [] ->
  Execute lib data w = (w', Ok r) ->
  out_vals (self w') = [].
Proof.
  intros [Hh Hc Hna Hno] Hr.
  rewrite (Execute_unfold lib data w cmp Hh Hc). cbv zeta.
  pose proof (stable_set_shapes lib cmp (set_vt None w)) as StA.
  remember (set_shapes lib cmp (set_vt None w)).1 as wA eqn:HwA.
  clear HwA.
  pose proof (stable_bind_inputs lib data cmp (next_handle (native w)) wA)
    as StC.
  destruct (bind_inputs _ _ _ _ wA) as [wC [[]|?]]; [|discriminate].
  destruct StA as [_ _ _ HA]. destruct StC as [_ _ _ HC].
  cbn [fst] in HC. simpl in HA.
  assert (HD : bind_outputs lib cmp (next_handle (native w)) wC
               = (upd_self (set_out_vals []) wC, Ok tt)).
  { unfold bind_outputs. rewrite bind_unfold.
    set (w0 := upd_self (set_out_vals []) wC).
    change (modify (upd_self (set_out_vals [])) wC) with (w0, Ok tt).
    cbv beta iota. rewrite bind_unfold.
    replace (getattr nr_outputs w0) with (w0, Ok no)
      by (unfold getattr; simpl; rewrite HC, HA, Hno; reflexivity).
    cbv beta iota. rewrite Hr. reflexivity. }
  rewrite HD.
  destruct (ExecuteComputation_spec lib cmp (next_handle (native w))
              (upd_self (set_out_vals []) wC)) as (wE & EE & _ & SE & _).
  rewrite EE. cbn [fst]. intros [= <- _]. rewrite SE. reflexivity.
Qed.

(** After a normal return of [Execute], [self.in_vals] has one entry per
    declared argument and [self.out_vals] one record per declared output;
    the record of output [k] names the value bound in the context to the
    [k]-th array this call appended to [self.buffers], and its count [n] is
    non-negative and is the number of [c_float] elements of that array. *)
Theorem Execute_out_vals_match_buffers lib data w w' r cmp na no :
  loaded w cmp na no ->
  Execute lib data w = (w', Ok r) ->
  length (in_vals (self w')) = Z.to_nat na
  /\ length (out_vals (self w')) = Z.to_nat no
  /\ forall (k : nat) out t n,
       out_vals (self w') !! k = Some (out, t, n) ->
       out = so_output lib (Z.of_nat k)
       /\ 0 <= n
       /\ exists b,
            buffers (self w') !! (length (buffers (self w)) + k)%nat = Some b
            /\ bound_outs (context_of (next_handle (native w)) w') !! k
               = Some (out, b)
            /\ (Z.of_nat ∘ length) <$> memory w' !! b = Some (n * 4).
Proof.
  intros L E. assert (E0 : Execute lib data w = (w', Ok self_buffers))
    by (destruct r; exact E).
  pose proof (Execute_result lib data w cmp na no L) as R.
  rewrite E in R. simpl in R. unfold Execute_outcome in R.
  destruct (Z.of_nat (length data) <? na); [discriminate|].
  destruct (first_error _ _ _ _ _) eqn:Hfe; [discriminate|]. clear R.
  rewrite first_error_range_None in Hfe.
  apply (Execute_ok _ _ _ _ _ _ _ _ L) in E. destruct E.
  split; [rewrite ex_in_vals0, length_fmap; apply length_range|].
  destruct (last (range na)) as [i|] eqn:Hlast.
  - specialize (ex_out_vals0 i eq_refl).
    split; [rewrite ex_out_vals0, length_fmap; apply length_range|].
    intros k out t n Hk. rewrite ex_out_vals0, list_lookup_fmap in Hk.
    destruct (range no !! k) as [idx|] eqn:Hidx; [|discriminate].
    apply lookup_lt_Some in Hidx as Hlt. rewrite length_range in Hlt.
    rewrite range_lookup in Hidx by exact Hlt. injection Hidx as <-.
    simpl in Hk. injection Hk as <- <- <-.
    assert (Hin : 0 <= Z.of_nat k < no) by lia.
    apply Hfe, output_error_None in Hin as (_ & n & Hn & Hn0 & _).
    assert (Hcount : count lib [(so_arg lib input0_idx, input0_real_shape)]
                       (Z.of_nat k) = n)
      by (unfold count; rewrite Hn; reflexivity).
    rewrite Hcount. split; [reflexivity|]. split; [exact Hn0|].
    exists (length (memory w) + k)%nat. split; [|split].
    + rewrite ex_buffers0, lookup_app_r by lia.
      replace (length (buffers (self w)) + k - length (buffers (self w)))%nat
        with k by lia.
      apply lookup_seq. rewrite length_range. split; [reflexivity|exact Hlt].
    + rewrite ex_bound_outs0, lookup_zip_with, list_lookup_fmap.
      rewrite range_lookup by exact Hlt. simpl.
      rewrite (proj2 (lookup_seq (length (memory w)) (length (range no)) k
                        (length (memory w) + k)))
        by (rewrite length_range; split; [reflexivity|exact Hlt]).
      reflexivity.
    + rewrite ex_memory0, lookup_app_r by lia.
      replace (length (memory w) + k - length (memory w))%nat with k by lia.
      rewrite lookup_zip_with, !list_lookup_fmap.
      rewrite range_lookup by exact Hlt. simpl.
      unfold output_bytes. rewrite length_fit, Hcount. unfold zero_array.
      rewrite repeat_length. unfold sizeof_c_float. f_equal. lia.
  - apply last_None in Hlast.
    assert (Hno : range no = []).
    { destruct (range no) eqn:Hr; [reflexivity|]. exfalso.
      apply ex_vt0; [discriminate|exact Hlast]. }
    assert (Hout : out_vals (self w') = [])
      by (exact (Execute_no_outputs lib data w w' self_buffers cmp na no
                   L Hno E0)).
    rewrite Hout. split; [rewrite <- (length_range no), Hno; reflexivity|].
    intros k out t n Hk. discriminate.
Qed.

Lemma Execute_out_vals_match_buffers_witness :
  loaded detector_loaded 1 1 1
  /\ length (out_vals (self (Execute detector [[x05]] detector_loaded).1))
     = 1%nat.
Proof.
  assert (L : loaded detector_loaded 1 1 1) by (split; vm_compute; reflexivity).
  split; [exact L|].
  destruct (Execute detector [[x05]] detector_loaded) as [w' r] eqn:E.
  assert (r = Ok self_buffers) as ->
    by (apply (f_equal snd) in E; vm_compute in E; congruence).
  exact (proj1 (proj2 (Execute_out_vals_match_buffers detector [[x05]]
                         detector_loaded w' self_buffers 1 1 1 L E))).
Defined.

(** ** What every reachable state satisfies *)

#[global] Instance sync_preorder : PreOrder sync.
Proof.
  split.
  - intros w. exists 0%nat. rewrite app_nil_r. auto.
  - intros w1 w2 w3 (k1 & M1 & B1) (k2 & M2 & B2). exists (k1 + k2)%nat.
    split; [lia|]. rewrite B2, B1, M1, <- app_assoc, seq_app. reflexivity.
Qed.

#[global] Instance untouched_preorder : PreOrder untouched.
Proof.
  unfold untouched. split.
  - intros w. auto.
  - intros w1 w2 w3 [] []. split; congruence.
Qed.

Lemma untouched_del : preserves untouched __del__.
Proof.
  unfold __del__, odla_DestroyContext, odla_DestroyComputation, call.
  rules untouched; split; reflexivity.
Qed.

Lemma sync_same w w' :
  memory w' = memory w -> buffers (self w') = buffers (self w) -> sync w w'.
Proof. intros Hm Hb. exists 0%nat. rewrite Hm, Hb, app_nil_r. auto. Qed.

Lemma sync_bind_output lib cmp c idx :
  preserves sync (bind_output lib cmp c idx).
Proof.
  intros w. unfold bind_output.
  unfold odla_GetOutputFromComputationByIdx, odla_GetRuntimeShape,
    odla_BindToOutput, upd_context, call, local_vt, c_float_array.
  unfold mbind, M_bind, mret, M_ret, get, modify, lift, raise. cbn.
  destruct (element_count _) as [n|e]; [|apply sync_same; reflexivity].
  destruct (vt w) as [t|]; [|apply sync_same; reflexivity].
  destruct ((n <? - 2 ^ 63) || (PY_SSIZE_T_MAX <? n));
    [apply sync_same; reflexivity|].
  destruct (n <? 0); [apply sync_same; reflexivity|].
  destruct (PY_SSIZE_T_MAX <? _); [apply sync_same; reflexivity|].
  cbn. destruct (so_allocates lib (memory w) _);
    [|apply sync_same; reflexivity].
  exists 1%nat. simpl. rewrite length_app. simpl. auto.
Qed.

Lemma sync_bind_outputs lib cmp c : preserves sync (bind_outputs lib cmp c).
Proof.
  unfold bind_outputs.
  apply (preserves_bind sync);
    [apply (preserves_modify sync); intros w; apply sync_same; reflexivity|].
  intros _. apply (preserves_bind sync); [apply (preserves_getattr sync)|].
  intros no. apply (preserves_for_each sync). intros idx.
  apply sync_bind_output.
Qed.

Lemma sync_bind_inputs lib data cmp c :
  preserves sync (bind_inputs lib data cmp c).
Proof.
  intros w. destruct (keeps_mem_bind_inputs lib data cmp c w).
  apply sync_same; assumption.
Qed.

Lemma length_write_outputs lib cmp cx outs : forall mem,
  length (fold_left (write_output lib cmp cx) outs mem) = length mem.
Proof.
  induction outs as [|ob outs IH]; intros mem; [reflexivity|].
  simpl. rewrite IH. unfold write_output. apply length_insert.
Qed.

Lemma sync_ExecuteComputation lib cmp c :
  preserves sync (odla_ExecuteComputation lib cmp c).
Proof.
  intros w. destruct (ExecuteComputation_spec lib cmp c w)
    as (w' & E & M & S & _).
  rewrite E. simpl. exists 0%nat.
  rewrite M, S, length_write_outputs, app_nil_r. auto.
Qed.

Lemma sync_Execute lib data w : sync w (Execute lib data w).1.
Proof.
  destruct (h (self w)) eqn:Hh;
    [|rewrite Execute_unloaded by auto; apply sync_same; reflexivity].
  destruct (comp (self w)) as [cmp|] eqn:Hc;
    [|rewrite Execute_unloaded by auto; apply sync_same; reflexivity].
  etransitivity;
    [|apply (Execute_tail sync lib data w cmp Hh Hc
               (sync_bind_inputs lib data cmp) (sync_bind_outputs lib cmp)
               (sync_ExecuteComputation lib cmp))].
  destruct (set_shapes_spec lib cmp (set_vt None w)) as (wA & EA & SA).
  rewrite EA. destruct SA. apply sync_same; assumption.
Qed.

Lemma stable_Execute lib data w : stable w (Execute lib data w).1.
Proof.
  destruct (h (self w)) eqn:Hh;
    [|rewrite Execute_unloaded by auto; split; reflexivity].
  destruct (comp (self w)) as [cmp|] eqn:Hc;
    [|rewrite Execute_unloaded by auto; split; reflexivity].
  apply (Execute_creates_one_context lib data w cmp Hh Hc).
Qed.

Lemma consistent_sync w w' :
  sync w w' ->
  buffers (self w) = seq 0 (length (memory w)) ->
  buffers (self w') = seq 0 (length (memory w')).
Proof.
  intros (k & M & B) H. rewrite B, H, M, seq_app. reflexivity.
Qed.

Lemma reachable_consistent lib w : reachable lib w -> consistent w.
Proof.
  induction 1 as [|w w' _ IH Hstep].
  - split; [reflexivity|discriminate|auto].
  - destruct IH as [IB IL IU]. destruct Hstep as [w|data w|w].
    + destruct (Load_spec lib w) as (w1 & E & L & _ & _ & C & B & M).
      rewrite E. simpl. split.
      * rewrite B, M. exact IB.
      * intros _. eauto.
      * intros Hh. destruct L as [Hh1 _ _ _]. congruence.
    + pose proof (stable_Execute lib data w) as St.
      pose proof (sync_Execute lib data w) as Sy. split.
      * exact (consistent_sync _ _ Sy IB).
      * intros Hh. destruct St as [Sh ? ? ?]. rewrite Sh in Hh.
        destruct (IL Hh) as (cmp & na & no & L). exists cmp, na, no.
        apply (loaded_stable w); [split; assumption|exact L].
      * intros Hh. destruct St as [Sh Sc _ _]. rewrite Sh in Hh.
        rewrite Execute_unloaded by auto. simpl. auto.
    + destruct (untouched_del w) as [S M]. split.
      * rewrite S, M. exact IB.
      * rewrite S. intros Hh. destruct (IL Hh) as (cmp & na & no & []).
        exists cmp, na, no. split; rewrite S; assumption.
      * rewrite S. exact IU.
Qed.

Lemma reachable_detector_executed :
  reachable detector (Execute detector [[x05]] detector_loaded).1.
Proof.
  apply (reachable_step detector detector_loaded); [|apply step_Execute].
  apply (reachable_step detector __init__); [apply reachable_init|].
  apply step_Load.
Qed.

(** In every reachable state [self.buffers] lists each array the object
    has allocated exactly once: a reference is in the list if and only if
    it points to an allocated array, and no reference occurs twice. *)
Theorem reachable_buffers_valid lib w :
  reachable lib w ->
  NoDup (buffers (self w))
  /\ forall b : nat, b ∈ buffers (self w) <-> is_Some (memory w !! b).
Proof.
  intros [IB _ _]%reachable_consistent. rewrite IB. split.
  - apply NoDup_seq.
  - intros b. rewrite elem_of_seq, lookup_lt_is_Some. lia.
Qed.

Lemma reachable_buffers_valid_witness :
  reachable detector (Execute detector [[x05]] detector_loaded).1
  /\ NoDup (buffers (self (Execute detector [[x05]] detector_loaded).1)).
Proof.
  split; [exact reachable_detector_executed|].
  exact (proj1 (reachable_buffers_valid detector _
                  reachable_detector_executed)).
Defined.

Lemma Execute_outcome_not_AttributeError lib na no data mem :
  Execute_outcome lib na no data mem <> Raise AttributeError.
Proof.
  unfold Execute_outcome. destruct (_ <? _); [discriminate|].
  destruct (first_error _ _ _ _ _) as [e|] eqn:He; [|discriminate].
  apply first_error_kinds in He. intros [= ->].
  repeat (apply elem_of_cons in He as [He|He]; [discriminate|]).
  inversion He.
Qed.

(** On an object in a reachable state, [Execute] raises [AttributeError]
    exactly when [Load] has not been called. *)
Theorem reachable_Execute_AttributeError lib data w :
  reachable lib w ->
  (Execute lib data w).2 = Raise AttributeError <-> h (self w) = false.
Proof.
  intros [_ IL _]%reachable_consistent. split.
  - intros HR. destruct (h (self w)) eqn:Hh; [|reflexivity]. exfalso.
    destruct (IL eq_refl) as (cmp & na & no & L).
    rewrite (Execute_result lib data w cmp na no L) in HR.
    exact (Execute_outcome_not_AttributeError _ _ _ _ _ HR).
  - intros Hh. rewrite Execute_unloaded by auto. reflexivity.
Qed.

Lemma reachable_Execute_AttributeError_witness :
  reachable detector __init__
  /\ (Execute detector [[x05]] __init__).2 = Raise AttributeError.
Proof.
  split; [apply reachable_init|].
  apply (reachable_Execute_AttributeError detector [[x05]] __init__
           (reachable_init detector)).
  reflexivity.
Defined.




(** ** Witnesses for the general forms of C1 and C2 *)

Lemma Execute_out_vals_stale_vt_witness :
  loaded detector_loaded 1 1 1
  /\ 1 <= 1
  /\ (so_output detector 0, so_value_type detector 100, 2).1.2
     = so_value_type detector (so_arg detector (1 - 1)).
Proof.
  assert (L : loaded detector_loaded 1 1 1) by (split; vm_compute; reflexivity).
  split; [exact L|]. split; [lia|].
  apply (Execute_out_vals_stale_vt detector [[x05]] detector_loaded
           (Execute detector [[x05]] detector_loaded).1 self_buffers 1 1 1
           _ L); [vm_compute; reflexivity|lia|].
  vm_compute. apply list_elem_of_here.
Defined.

Lemma Execute_buffer_length_witness :
  loaded detector_loaded 1 1 1
  /\ length <$> memory (Execute detector [[x05]] detector_loaded).1 !! 0%nat
     = Some 8%nat.
Proof.
  assert (L : loaded detector_loaded 1 1 1) by (split; vm_compute; reflexivity).
  split; [exact L|].
  assert (H := Execute_buffer_length detector [[x05]] detector_loaded
                 (Execute detector [[x05]] detector_loaded).1 self_buffers
                 1 1 1 0 0 L ltac:(vm_compute; reflexivity)
                 ltac:(vm_compute; reflexivity)).
  vm_compute in H. vm_compute. exact H.
Defined.
